(** * starlink-coverage: footprint geometry, grid mapping and coverage accumulation

    A shallow embedding of [main.py].

    Conventions of the embedding:
    - Python [float] values are modelled as real numbers ([R]); rounding is
      not modelled, so a statement about a value is a statement about the
      exact value of the expression the code evaluates.  [math.asin] and
      division keep the failure modes they have on Python floats
      ([ValueError], [ZeroDivisionError]); on the numpy floats that skyfield
      returns, a zero divisor gives an infinity instead, which [math.asin]
      then refuses with [ValueError].
    - Exceptions are explicit: a computation returns [Ok v] or [Raise e].
    - The third-party libraries (skyfield, geog, shapely, h3) are not part of
      the program; they are variables of the section that holds the driver.
    - [coverage] (a [defaultdict(int)]) is a [gmap string Z], [coverage_set]
      (a [set]) a [gset string]; [subpoints] (a [dict] whose iteration order
      is observable through the order of the calls) is an association list
      with Python's insertion semantics. *)

From Stdlib Require Import Reals Lra ZArith List String Ascii.
From Stdlib Require Import DecimalString DecimalPos DecimalZ.
From stdpp Require Import gmap strings list fin_maps fin_sets.

(** ** Exceptions *)

Inductive exn : Type :=
  | ValueError (msg : string)
  | ZeroDivisionError (msg : string)
  | UnboundLocalError (msg : string)
  | KeyError (key : string)
  | Exception (msg : string)
  | LibraryError (msg : string).

Inductive result (A : Type) : Type :=
  | Ok (a : A)
  | Raise (e : exn).
Arguments Ok {A} a.
Arguments Raise {A} e.

Definition rbind {A B} (c : result A) (k : A → result B) : result B :=
  match c with
  | Ok a => k a
  | Raise e => Raise e
  end.

Declare Scope result_scope.
Delimit Scope result_scope with result.
Notation "'let?' x ':=' c 'in' k" := (rbind c (fun x => k))
  (at level 10, x pattern, c at level 100, k at level 200) : result_scope.

Definition is_ok {A} (c : result A) : bool :=
  match c with Ok _ => true | Raise _ => false end.

(** An expression statement: the value is built and dropped.  Python's
    [Exception("...")] on a line of its own is such a statement: it is not
    [raise Exception("...")]. *)
Definition expr_stmt {A} (value : A) : result unit := Ok tt.

(** ** Python values and containers *)

(** Python's [str] on an [int]. *)
Definition str_int (z : Z) : string := NilZero.string_of_int (Z.to_int z).

Definition newline : string := String (ascii_of_nat 10) EmptyString.

(** The number of times a character occurs in a string. *)
Fixpoint count_char (a : ascii) (s : string) : nat :=
  match s with
  | EmptyString => 0
  | String c rest => (if Ascii.eqb a c then 1 else 0) + count_char a rest
  end.

(** A [dict] with string keys whose order matters: assignment to a key that
    is present keeps its place and replaces its value, a new key goes last. *)
Fixpoint dict_set {V} (k : string) (v : V) (d : list (string * V)) : list (string * V) :=
  match d with
  | [] => [(k, v)]
  | (k', v') :: rest =>
      if decide (k = k') then (k', v) :: rest else (k', v') :: dict_set k v rest
  end.

Fixpoint dict_get {V} (k : string) (d : list (string * V)) : result V :=
  match d with
  | [] => Raise (KeyError k)
  | (k', v) :: rest => if decide (k = k') then Ok v else dict_get k rest
  end.

(** [range(n)] *)
Definition range (n : Z) : list Z := map Z.of_nat (seq 0 (Z.to_nat n)).

(** A [for] loop whose body updates a state and may raise. *)
Fixpoint for_each {S A} (body : S → A → result S) (l : list A) (s : S) : result S :=
  match l with
  | [] => Ok s
  | x :: rest => rbind (body s x) (for_each body rest)
  end.

(** numpy's [linspace(start, stop, num)] with its default [endpoint=True]:
    [num] samples [start + i * (stop - start) / (num - 1)], the last one
    being [stop]. *)
Definition np_linspace (start stop : R) (num : nat) : list R :=
  map (fun i => (start + INR i * ((stop - start) / INR (num - 1)))%R) (seq 0 num).

(** *** Facts about them *)

Lemma count_char_app a s t :
  count_char a (s +:+ t) = (count_char a s + count_char a t)%nat.
Proof. induction s as [| c s IH]; simpl; [reflexivity | rewrite IH; lia]. Qed.

Lemma count_char_uint a d :
  a = ","%char ∨ a = ascii_of_nat 10 →
  count_char a (NilEmpty.string_of_uint d) = 0%nat.
Proof.
  intros [-> | ->]; induction d; simpl; auto.
Qed.

(** A printed integer holds neither a comma nor a line break. *)
Lemma count_char_str_int a z :
  a = ","%char ∨ a = ascii_of_nat 10 → count_char a (str_int z) = 0%nat.
Proof.
  intros Ha. unfold str_int, NilZero.string_of_int, NilZero.string_of_uint.
  destruct (Z.to_int z) as [d | d].
  - destruct d; try apply (count_char_uint a _ Ha).
    destruct Ha as [-> | ->]; reflexivity.
  - assert (count_char a (String "-" EmptyString) = 0%nat) as Hminus
      by (destruct Ha as [-> | ->]; reflexivity).
    destruct d;
      try (change (String "-" ?s) with (String "-" EmptyString +:+ s);
           rewrite count_char_app, Hminus; apply (count_char_uint a _ Ha)).
    destruct Ha as [-> | ->]; reflexivity.
Qed.

(** A string is cut in one way only at the first occurrence of a
    character. *)
Lemma split_at_first_char a s1 s2 t1 t2 :
  count_char a s1 = 0%nat → count_char a s2 = 0%nat →
  s1 +:+ String a t1 = s2 +:+ String a t2 → s1 = s2 ∧ t1 = t2.
Proof.
  revert s2. induction s1 as [| c1 s1 IH]; intros [| c2 s2]; simpl.
  - intros _ _ [= ->]. auto.
  - intros _ H2 [= <- _]. rewrite Ascii.eqb_refl in H2. discriminate.
  - intros H1 _ [= -> _]. rewrite Ascii.eqb_refl in H1. discriminate.
  - intros H1 H2 [= -> Heq].
    destruct (IH s2) as [-> ->]; [lia | lia | exact Heq | auto].
Qed.

(** Printing is one to one and reading the print gives the number back. *)
Lemma str_int_read_back z :
  NilZero.int_of_string (str_int z) = Some (Z.to_int z).
Proof.
  unfold str_int. apply NilZero.isi; destruct z; simpl; try discriminate;
    intros [= H]; exact (Unsigned.to_uint_nonnil _ H).
Qed.

Lemma str_int_inj z1 z2 : str_int z1 = str_int z2 → z1 = z2.
Proof.
  intros H. apply DecimalZ.to_int_inj.
  pose proof (str_int_read_back z1) as H1. rewrite H, str_int_read_back in H1.
  congruence.
Qed.

Lemma count_dot_uint d : count_char "."%char (NilEmpty.string_of_uint d) = 0%nat.
Proof. induction d; simpl; auto. Qed.

Lemma count_dot_str_int z : count_char "."%char (str_int z) = 0%nat.
Proof.
  unfold str_int, NilZero.string_of_int, NilZero.string_of_uint.
  destruct (Z.to_int z) as [d | d]; destruct d; simpl;
    first [reflexivity | apply count_dot_uint].
Qed.


Lemma dict_set_keys {V} (k : string) (v : V) (d : list (string * V)) :
  (dict_set k v d).*1 = if decide (k ∈ d.*1) then d.*1 else d.*1 ++ [k].
Proof.
  induction d as [| [k' v'] rest IH]; [reflexivity |].
  cbn [dict_set]. destruct (decide (k = k')) as [-> | Hne]; rewrite !fmap_cons.
  - rewrite decide_True by left. reflexivity.
  - rewrite IH. cbn [fst]. destruct (decide (k ∈ rest.*1)) as [Hin | Hnin].
    + rewrite decide_True by (right; exact Hin). reflexivity.
    + rewrite decide_False; [reflexivity |].
      intros [Heq | Hin]%elem_of_cons; [congruence | contradiction].
Qed.


Lemma dict_get_set_eq {V} (k : string) (v : V) (d : list (string * V)) :
  dict_get k (dict_set k v d) = Ok v.
Proof.
  induction d as [| [k' v'] rest IH]; simpl.
  - rewrite decide_True by reflexivity. reflexivity.
  - destruct (decide (k = k')) as [-> | Hne]; simpl.
    + rewrite decide_True by reflexivity. reflexivity.
    + rewrite decide_False by exact Hne. exact IH.
Qed.

Lemma dict_get_set_ne {V} (k k' : string) (v : V) (d : list (string * V)) :
  k ≠ k' → dict_get k' (dict_set k v d) = dict_get k' d.
Proof.
  intros Hne. induction d as [| [k0 v0] rest IH]; simpl.
  - rewrite decide_False by congruence. reflexivity.
  - destruct (decide (k = k0)) as [-> | Hne0]; simpl.
    + rewrite !decide_False by congruence. reflexivity.
    + destruct (decide (k' = k0)); [reflexivity | exact IH].
Qed.

Lemma dict_get_missing {V} (k : string) (d : list (string * V)) :
  k ∉ d.*1 → dict_get k d = Raise (KeyError k).
Proof.
  induction d as [| [k' v'] rest IH]; simpl; intros Hk; [reflexivity |].
  apply not_elem_of_cons in Hk as [Hne Hk].
  rewrite decide_False by exact Hne. apply IH, Hk.
Qed.

Lemma for_each_app {S A} (body : S → A → result S) (l1 l2 : list A) (s : S) :
  for_each body (l1 ++ l2) s = rbind (for_each body l1 s) (for_each body l2).
Proof.
  revert s. induction l1 as [| x l1 IH]; intros s; simpl; [reflexivity |].
  destruct (body s x) as [s1 | e]; simpl; [apply IH | reflexivity].
Qed.



(** ** Footprint geometry *)

Module Geometry.
Local Open Scope R_scope.

Definition R_MEAN : R := 6378.1.

Definition to_deg (radians : R) : R := radians * (180 / PI).
Definition to_rads (degrees : R) : R := degrees * (PI / 180).

Definition RIGHT_ANGLE : R := to_rads 90.

(** [math.asin]: a [ValueError] outside [-1, 1]. *)
Definition math_asin (x : R) : result R :=
  if Rle_dec (-1) x then
    if Rle_dec x 1 then Ok (asin x)
    else Raise (ValueError "math domain error")
  else Raise (ValueError "math domain error").

(** Float division: a [ZeroDivisionError] on a zero divisor (Python floats;
    see the conventions at the head of the file for numpy's). *)
Definition float_div (x y : R) : result R :=
  if Req_dec_T y 0 then Raise (ZeroDivisionError "float division by zero")
  else Ok (x / y).

(** The argument handed to [math.asin] by both geometry functions. *)
Definition asin_arg (altitude term_angle : R) : result R :=
  float_div (sin (to_rads term_angle + RIGHT_ANGLE) * R_MEAN) (R_MEAN + altitude).

Definition calcAreaSpherical (altitude term_angle : R) : result R :=
  let epsilon := to_rads term_angle in
  (let? q := float_div (sin (epsilon + RIGHT_ANGLE) * R_MEAN) (R_MEAN + altitude) in
   let? eta_FOV := math_asin q in
   let lambda_FOV := 2 * (PI - (epsilon + RIGHT_ANGLE + eta_FOV)) in
   let area := 2 * PI * (R_MEAN ^ 2) * (1 - cos (lambda_FOV / 2)) in
   Ok area)%result.

Definition calcCapAngle (altitude term_angle : R) : result R :=
  let epsilon := to_rads term_angle in
  (let? q := float_div (sin (epsilon + RIGHT_ANGLE) * R_MEAN) (R_MEAN + altitude) in
   let? eta_FOV := math_asin q in
   let lambda_FOV := 2 * (PI - (epsilon + RIGHT_ANGLE + eta_FOV)) in
   Ok (lambda_FOV / 2))%result.

(** The closed form the specification gives for the half-angle. *)
Definition cap_formula (altitude term_angle : R) : R :=
  PI - (to_rads term_angle + PI / 2
        + asin (sin (to_rads term_angle + PI / 2) * R_MEAN / (R_MEAN + altitude))).

(** *** Facts about the geometry *)

Lemma RIGHT_ANGLE_eq : RIGHT_ANGLE = PI / 2.
Proof. unfold RIGHT_ANGLE, to_rads. lra. Qed.

Lemma R_MEAN_pos : 0 < R_MEAN.
Proof. unfold R_MEAN. lra. Qed.

Lemma to_rads_range e :
  0 <= e <= 90 → 0 <= to_rads e <= PI / 2.
Proof.
  intros [H0 H90]. unfold to_rads. pose proof PI_RGT_0 as Hpi. split; nra.
Qed.

Lemma sin_shifted e : sin (to_rads e + RIGHT_ANGLE) = cos (to_rads e).
Proof. rewrite RIGHT_ANGLE_eq, Rplus_comm. symmetry. apply cos_sin. Qed.

Lemma float_div_ok x y : y <> 0 → float_div x y = Ok (x / y).
Proof. intros Hy. unfold float_div. destruct (Req_dec_T y 0); [contradiction | reflexivity]. Qed.

Lemma math_asin_ok x : -1 <= x <= 1 → math_asin x = Ok (asin x).
Proof.
  intros [Hl Hu]. unfold math_asin.
  destruct (Rle_dec (-1) x); [| contradiction].
  destruct (Rle_dec x 1); [reflexivity | contradiction].
Qed.

Lemma math_asin_inv x v : math_asin x = Ok v → -1 <= x <= 1 ∧ v = asin x.
Proof.
  unfold math_asin. destruct (Rle_dec (-1) x); [| discriminate].
  destruct (Rle_dec x 1); [| discriminate]. intros [= <-]. auto.
Qed.

Lemma math_asin_raises x : x < -1 ∨ 1 < x → math_asin x = Raise (ValueError "math domain error").
Proof.
  intros Hx. unfold math_asin.
  destruct (Rle_dec (-1) x); [| reflexivity].
  destruct (Rle_dec x 1); [lra | reflexivity].
Qed.

(** The quotient handed to [asin] lies in [0, 1] for a satellite at or above
    the sphere and an elevation between the horizon and the zenith. *)
Lemma quotient_bounds h e :
  0 <= h → 0 <= e <= 90 →
  0 <= cos (to_rads e) * R_MEAN / (R_MEAN + h) <= 1.
Proof.
  intros Hh He. pose proof R_MEAN_pos as HR.
  pose proof (to_rads_range e He) as [Hlo Hhi].
  assert (0 <= cos (to_rads e)) as Hc0 by (apply cos_ge_0; lra).
  pose proof (COS_bound (to_rads e)) as [_ Hc1].
  assert (0 < R_MEAN + h) as Hden by lra.
  split.
  - unfold Rdiv. apply Rmult_le_pos; [nra | left; apply Rinv_0_lt_compat; lra].
  - apply (Rmult_le_reg_r (R_MEAN + h)); [lra |].
    unfold Rdiv. rewrite Rmult_assoc, Rinv_l by lra. nra.
Qed.

(** The monotonicity of [asin] that the bounds need, from that of [sin]. *)
Lemma asin_lt_of_sin x y :
  -1 <= x <= 1 → - (PI / 2) <= y <= PI / 2 → x < sin y → asin x < y.
Proof.
  intros Hx [Hy1 Hy2] Hlt. pose proof (asin_bound x) as [Ha1 Ha2].
  apply sin_increasing_0; try lra. rewrite sin_asin by exact Hx. exact Hlt.
Qed.

Lemma asin_gt_of_sin x y :
  -1 <= x <= 1 → - (PI / 2) <= y <= PI / 2 → sin y < x → y < asin x.
Proof.
  intros Hx [Hy1 Hy2] Hlt. pose proof (asin_bound x) as [Ha1 Ha2].
  apply sin_increasing_0; try lra. rewrite sin_asin by exact Hx. exact Hlt.
Qed.

Lemma calcCapAngle_unfold h e :
  R_MEAN + h <> 0 →
  -1 <= sin (to_rads e + RIGHT_ANGLE) * R_MEAN / (R_MEAN + h) <= 1 →
  calcCapAngle h e = Ok (cap_formula h e).
Proof.
  intros Hden Harg. unfold calcCapAngle. rewrite float_div_ok by exact Hden. simpl.
  rewrite math_asin_ok by exact Harg. simpl. f_equal.
  unfold cap_formula. rewrite RIGHT_ANGLE_eq in *. lra.
Qed.

Lemma calcCapAngle_total h e :
  0 <= h → 0 <= e <= 90 → calcCapAngle h e = Ok (cap_formula h e).
Proof.
  intros Hh He. pose proof R_MEAN_pos. apply calcCapAngle_unfold; [lra |].
  rewrite sin_shifted. pose proof (quotient_bounds h e Hh He). lra.
Qed.

Lemma calcAreaSpherical_total h e :
  0 <= h → 0 <= e <= 90 → is_ok (calcAreaSpherical h e) = true.
Proof.
  intros Hh He. pose proof R_MEAN_pos. unfold calcAreaSpherical.
  rewrite float_div_ok by lra. simpl.
  rewrite math_asin_ok; [reflexivity |].
  rewrite sin_shifted. pose proof (quotient_bounds h e Hh He). lra.
Qed.

Lemma calcCapAngle_inv h e v :
  calcCapAngle h e = Ok v →
  R_MEAN + h <> 0 ∧
  -1 <= sin (to_rads e + RIGHT_ANGLE) * R_MEAN / (R_MEAN + h) <= 1 ∧
  v = cap_formula h e.
Proof.
  unfold calcCapAngle, float_div.
  destruct (Req_dec_T (R_MEAN + h) 0) as [Hz | Hnz]; [discriminate |]. simpl.
  destruct (math_asin _) as [eta | err] eqn:Hasin; [| discriminate]. simpl.
  intros [= <-]. apply math_asin_inv in Hasin as [Hq ->].
  repeat split; try tauto.
  unfold cap_formula. rewrite RIGHT_ANGLE_eq. lra.
Qed.

(** The half-angle in terms of the quotient [q = cos eps * R / (R + h)]:
    [pi/2 - eps - asin q]. *)
Lemma cap_formula_cos h e :
  cap_formula h e
  = PI / 2 - to_rads e - asin (cos (to_rads e) * R_MEAN / (R_MEAN + h)).
Proof.
  unfold cap_formula. rewrite (Rplus_comm (to_rads e) (PI / 2)), <- cos_sin. lra.
Qed.

Lemma cap_formula_bounds h e :
  0 <= h → 0 <= e < 90 →
  0 <= cap_formula h e < PI / 2 ∧ cap_formula h e <= PI / 2 - to_rads e ∧
  (0 < h → 0 < cap_formula h e) ∧ (h = 0 → cap_formula h e = 0).
Proof.
  intros Hh [He0 He90]. pose proof R_MEAN_pos as HR. pose proof PI_RGT_0 as Hpi.
  assert (0 <= to_rads e < PI / 2) as [Hlo Hhi] by (unfold to_rads; split; nra).
  assert (0 < cos (to_rads e)) as Hc by (apply cos_gt_0; lra).
  pose proof (quotient_bounds h e Hh (conj He0 (Rlt_le _ _ He90))) as Hq.
  rewrite cap_formula_cos.
  set (q := cos (to_rads e) * R_MEAN / (R_MEAN + h)) in *.
  assert (0 < q) as Hqpos.
  { unfold q, Rdiv. apply Rmult_lt_0_compat; [nra | apply Rinv_0_lt_compat; lra]. }
  assert (0 < asin q) as Hapos.
  { apply asin_gt_of_sin; [lra | lra | rewrite sin_0; exact Hqpos]. }
  assert (h = 0 → asin q = PI / 2 - to_rads e) as Hzero.
  { intros ->. unfold q. replace (cos (to_rads e) * R_MEAN / (R_MEAN + 0))
      with (cos (to_rads e)) by (field; lra).
    rewrite <- sin_shift. apply asin_sin. lra. }
  assert (0 < h → asin q < PI / 2 - to_rads e) as Hpos.
  { intros Hh'. apply asin_lt_of_sin; [lra | lra |].
    rewrite sin_shift. unfold q.
    apply (Rmult_lt_reg_r (R_MEAN + h)); [lra |].
    unfold Rdiv. rewrite Rmult_assoc, Rinv_l by lra. nra. }
  destruct Hh as [Hh | <-].
  - specialize (Hpos Hh). repeat split; lra.
  - specialize (Hzero eq_refl). repeat split; lra.
Qed.

(** C2. For every altitude [h] and elevation [e] (degrees) for which the
    computation is defined, [calcCapAngle] returns exactly
    [pi - (eps + pi/2 + asin (sin (eps + pi/2) * R / (R + h)))] with
    [eps = e * (pi / 180)], the elevation in radians, and [R = 6378.1]. *)
Theorem calcCapAngle_returns_formula (h e v : R) :
  calcCapAngle h e = Ok v →
  v = PI - (e * (PI / 180) + PI / 2
            + asin (sin (e * (PI / 180) + PI / 2) * 6378.1 / (6378.1 + h))).
Proof.
  intros Hv. apply calcCapAngle_inv in Hv as (_ & _ & ->).
  unfold cap_formula, to_rads, R_MEAN. reflexivity.
Qed.

Lemma calcCapAngle_returns_formula_witness :
  calcCapAngle 550 35
  = Ok (PI - (35 * (PI / 180) + PI / 2
              + asin (sin (35 * (PI / 180) + PI / 2) * 6378.1 / (6378.1 + 550)))) ∧
  PI - (35 * (PI / 180) + PI / 2
        + asin (sin (35 * (PI / 180) + PI / 2) * 6378.1 / (6378.1 + 550)))
  = PI - (35 * (PI / 180) + PI / 2
          + asin (sin (35 * (PI / 180) + PI / 2) * 6378.1 / (6378.1 + 550))).
Proof.
  assert (calcCapAngle 550 35
          = Ok (PI - (35 * (PI / 180) + PI / 2
                      + asin (sin (35 * (PI / 180) + PI / 2) * 6378.1
                              / (6378.1 + 550))))) as H
    by (apply (calcCapAngle_total 550 35); lra).
  split; [exact H | exact (calcCapAngle_returns_formula 550 35 _ H)].
Defined.

(** C6, as the code has it.  For an altitude of at least 0 and an elevation
    in [0, 90) degrees [calcCapAngle] does not raise; it returns the value
    of the formula, which is at most [pi/2].  The value need not be
    positive: it is 0 at altitude 0 and elevation 0 (the lemma after this
    one).  As the elevation tends to 90 degrees the value tends to 0. *)
Theorem calcCapAngle_range (h : R) :
  0 <= h →
  (∀ e, 0 <= e < 90 →
        ∃ v, calcCapAngle h e = Ok v ∧
             v = PI - (e * (PI / 180) + PI / 2
                       + asin (sin (e * (PI / 180) + PI / 2) * 6378.1 / (6378.1 + h))) ∧
             v <= PI / 2) ∧
  (∀ delta, 0 < delta →
        ∃ gamma, 0 < gamma ∧
          ∀ e, 0 <= e < 90 → 90 - e < gamma →
               ∃ v, calcCapAngle h e = Ok v ∧ Rabs v < delta).
Proof.
  intros Hh. pose proof PI_RGT_0 as Hpi. split.
  - intros e He. exists (cap_formula h e).
    destruct (cap_formula_bounds h e Hh He) as (Hr & _ & _ & _).
    split; [apply calcCapAngle_total; lra |].
    split; [unfold cap_formula, to_rads, R_MEAN; reflexivity | lra].
  - intros delta Hdelta. exists (delta * (180 / PI)). split.
    + apply Rmult_lt_0_compat; [lra |]. apply Rdiv_lt_0_compat; lra.
    + intros e He Hnear. exists (cap_formula h e).
      destruct (cap_formula_bounds h e Hh He) as (Hr & Hle & _ & _).
      split; [apply calcCapAngle_total; lra |].
      rewrite Rabs_right by lra.
      apply Rle_lt_trans with (1 := Hle). unfold to_rads.
      assert ((90 - e) * (PI / 180) < delta) as Hlt.
      { apply (Rmult_lt_reg_r (180 / PI)); [apply Rdiv_lt_0_compat; lra |].
        replace ((90 - e) * (PI / 180) * (180 / PI)) with (90 - e) by (field; lra).
        exact Hnear. }
      lra.
Qed.

Lemma calcCapAngle_range_witness :
  0 <= 550 ∧
  (∀ e, 0 <= e < 90 →
        ∃ v, calcCapAngle 550 e = Ok v ∧
             v = PI - (e * (PI / 180) + PI / 2
                       + asin (sin (e * (PI / 180) + PI / 2) * 6378.1 / (6378.1 + 550))) ∧
             v <= PI / 2) ∧
  (∀ delta, 0 < delta →
        ∃ gamma, 0 < gamma ∧
          ∀ e, 0 <= e < 90 → 90 - e < gamma →
               ∃ v, calcCapAngle 550 e = Ok v ∧ Rabs v < delta).
Proof.
  assert (0 <= 550) as H by lra.
  split; [exact H | exact (calcCapAngle_range 550 H)].
Defined.

(** C6 as stated fails on the sphere itself: at altitude 0 and elevation 0
    the half-angle is exactly 0, which is not inside the open interval. *)
Lemma calcCapAngle_zero_at_surface :
  0 <= 0 ∧ 0 <= 0 < 90 ∧ calcCapAngle 0 0 = Ok 0 ∧ ¬ (0 < 0 < PI / 2).
Proof.
  assert (0 <= 0 < 90) as He by lra.
  destruct (cap_formula_bounds 0 0 (Rle_refl 0) He) as (_ & _ & _ & Hz).
  repeat split; try lra.
  rewrite <- (Hz eq_refl) at 3. apply calcCapAngle_total; lra.
Qed.

(** C10. For an altitude of at least 0 and an elevation in [0, 90] degrees
    the argument of [asin], [sin (eps + pi/2) * R / (R + altitude)], equals
    [cos eps * R / (R + altitude)] and lies in [0, 1]; [math.asin] does not
    raise there and both geometry functions return. *)
Theorem asin_argument_in_unit_interval (h e : R) :
  0 <= h → 0 <= e <= 90 →
  ∃ q, asin_arg h e = Ok q ∧
       q = cos (to_rads e) * R_MEAN / (R_MEAN + h) ∧
       0 <= q <= 1 ∧
       math_asin q = Ok (asin q) ∧
       is_ok (calcCapAngle h e) = true ∧
       is_ok (calcAreaSpherical h e) = true.
Proof.
  intros Hh He. pose proof R_MEAN_pos as HR.
  pose proof (quotient_bounds h e Hh He) as Hq.
  exists (cos (to_rads e) * R_MEAN / (R_MEAN + h)). repeat split.
  - unfold asin_arg. rewrite float_div_ok by lra. now rewrite sin_shifted.
  - tauto.
  - tauto.
  - apply math_asin_ok. lra.
  - now rewrite calcCapAngle_total.
  - now apply calcAreaSpherical_total.
Qed.

Lemma asin_argument_in_unit_interval_witness :
  0 <= 550 ∧ 0 <= 35 <= 90 ∧
  ∃ q, asin_arg 550 35 = Ok q ∧
       q = cos (to_rads 35) * R_MEAN / (R_MEAN + 550) ∧
       0 <= q <= 1 ∧
       math_asin q = Ok (asin q) ∧
       is_ok (calcCapAngle 550 35) = true ∧
       is_ok (calcAreaSpherical 550 35) = true.
Proof.
  assert (0 <= 550) as Hh by lra.
  assert (0 <= 35 <= 90) as He by lra.
  split; [exact Hh | split; [exact He | exact (asin_argument_in_unit_interval 550 35 Hh He)]].
Defined.

(** *** Further facts: area and monotonicity *)

(** X3. [calcAreaSpherical] is [calcCapAngle] followed by the area of a
    spherical cap: it returns [2 * pi * R^2 * (1 - cos cap)] for the
    half-angle [cap] that [calcCapAngle] returns, and raises what
    [calcCapAngle] raises. *)
Theorem calcAreaSpherical_of_cap_angle (h e : R) :
  calcAreaSpherical h e
  = rbind (calcCapAngle h e)
          (fun cap => Ok (2 * PI * (R_MEAN ^ 2) * (1 - cos cap))).
Proof.
  unfold calcAreaSpherical, calcCapAngle.
  destruct (float_div _ _) as [q | err]; [| reflexivity]. simpl.
  destruct (math_asin q) as [eta | err]; reflexivity.
Qed.

Lemma asin_strictly_increasing x y :
  -1 <= x → x < y → y <= 1 → asin x < asin y.
Proof.
  intros Hx Hxy Hy. pose proof (asin_bound y) as [Hy1 Hy2].
  apply asin_lt_of_sin; [lra | lra |]. rewrite sin_asin by lra. exact Hxy.
Qed.

(** X4. For an altitude of at least 0 and an elevation in [0, 90) degrees
    [calcAreaSpherical] does not raise; it returns the area
    [2 * pi * R^2 * (1 - cos cap)] of the cap of half-angle [cap], the value
    of the formula of [calcCapAngle], with [R = 6378.1], and this area is at
    least 0 and at most that of a hemisphere, [2 * pi * R^2]. *)
Theorem calcAreaSpherical_range (h e : R) :
  0 <= h → 0 <= e < 90 →
  ∃ area, calcAreaSpherical h e = Ok area ∧
          area = 2 * PI * (6378.1 ^ 2)
                 * (1 - cos (PI - (e * (PI / 180) + PI / 2
                                   + asin (sin (e * (PI / 180) + PI / 2) * 6378.1
                                           / (6378.1 + h))))) ∧
          0 <= area <= 2 * PI * (6378.1 ^ 2).
Proof.
  intros Hh He. pose proof PI_RGT_0 as Hpi. pose proof R_MEAN_pos as HR.
  rewrite calcAreaSpherical_of_cap_angle, calcCapAngle_total by lra.
  unfold rbind. cbv beta iota.
  destruct (cap_formula_bounds h e Hh He) as ([Hlo Hhi] & _ & _ & _).
  eexists. split; [reflexivity |].
  split; [unfold cap_formula, to_rads, R_MEAN; reflexivity |].
  assert (0 < cos (cap_formula h e)) as Hcos by (apply cos_gt_0; lra).
  pose proof (COS_bound (cap_formula h e)) as [_ Hcos1].
  unfold R_MEAN in *. simpl.
  assert (0 < 2 * PI * (6378.1 * (6378.1 * 1))) as Hk
    by (apply Rmult_lt_0_compat; [lra | apply Rmult_lt_0_compat; lra]).
  set (k := 2 * PI * (6378.1 * (6378.1 * 1))) in *.
  split; nra.
Qed.

Lemma calcAreaSpherical_range_witness :
  0 <= 550 ∧ 0 <= 35 < 90 ∧
  ∃ area, calcAreaSpherical 550 35 = Ok area ∧
          area = 2 * PI * (6378.1 ^ 2)
                 * (1 - cos (PI - (35 * (PI / 180) + PI / 2
                                   + asin (sin (35 * (PI / 180) + PI / 2) * 6378.1
                                           / (6378.1 + 550))))) ∧
          0 <= area <= 2 * PI * (6378.1 ^ 2).
Proof.
  assert (0 <= 550) as Hh by lra.
  assert (0 <= 35 < 90) as He by lra.
  split; [exact Hh | split; [exact He | exact (calcAreaSpherical_range 550 35 Hh He)]].
Defined.

(** X5. At a fixed elevation in [0, 90) degrees a higher satellite never
    sees a smaller cap: on altitudes of at least 0 the value of
    [calcCapAngle], that of its formula, does not decrease when the altitude
    goes up. *)
Theorem calcCapAngle_increasing_in_altitude (h1 h2 e : R) :
  0 <= h1 → h1 <= h2 → 0 <= e < 90 →
  ∃ v1 v2,
    calcCapAngle h1 e = Ok v1 ∧ calcCapAngle h2 e = Ok v2 ∧
    v1 = PI - (e * (PI / 180) + PI / 2
               + asin (sin (e * (PI / 180) + PI / 2) * 6378.1 / (6378.1 + h1))) ∧
    v2 = PI - (e * (PI / 180) + PI / 2
               + asin (sin (e * (PI / 180) + PI / 2) * 6378.1 / (6378.1 + h2))) ∧
    v1 <= v2.
Proof.
  intros Hh1 Hle He. pose proof PI_RGT_0 as Hpi. pose proof R_MEAN_pos as HR.
  exists (cap_formula h1 e), (cap_formula h2 e).
  rewrite !calcCapAngle_total by lra. split; [reflexivity |]. split; [reflexivity |].
  split; [unfold cap_formula, to_rads, R_MEAN; reflexivity |].
  split; [unfold cap_formula, to_rads, R_MEAN; reflexivity |].
  destruct Hle as [Hlt | <-]; [| lra]. left.
  rewrite !cap_formula_cos.
  assert (0 < cos (to_rads e)) as Hcos by (apply cos_gt_0; unfold to_rads; nra).
  pose proof (quotient_bounds h1 e Hh1 ltac:(lra)) as Hq1.
  pose proof (quotient_bounds h2 e ltac:(lra) ltac:(lra)) as Hq2.
  assert (cos (to_rads e) * R_MEAN / (R_MEAN + h2)
          < cos (to_rads e) * R_MEAN / (R_MEAN + h1)) as Hq.
  { unfold Rdiv. apply Rmult_lt_compat_l; [nra |].
    apply Rinv_lt_contravar; nra. }
  assert (asin (cos (to_rads e) * R_MEAN / (R_MEAN + h2))
          < asin (cos (to_rads e) * R_MEAN / (R_MEAN + h1)))
    by (apply asin_strictly_increasing; lra).
  lra.
Qed.

Lemma calcCapAngle_increasing_in_altitude_witness :
  0 <= 340 ∧ 340 <= 550 ∧ 0 <= 35 < 90 ∧
  ∃ v1 v2,
    calcCapAngle 340 35 = Ok v1 ∧ calcCapAngle 550 35 = Ok v2 ∧
    v1 = PI - (35 * (PI / 180) + PI / 2
               + asin (sin (35 * (PI / 180) + PI / 2) * 6378.1 / (6378.1 + 340))) ∧
    v2 = PI - (35 * (PI / 180) + PI / 2
               + asin (sin (35 * (PI / 180) + PI / 2) * 6378.1 / (6378.1 + 550))) ∧
    v1 <= v2.
Proof.
  assert (0 <= 340) as H1 by lra. assert (340 <= 550) as H2 by lra.
  assert (0 <= 35 < 90) as H3 by lra.
  split; [exact H1 |]. split; [exact H2 |]. split; [exact H3 |].
  exact (calcCapAngle_increasing_in_altitude 340 550 35 H1 H2 H3).
Defined.

End Geometry.

(** ** The program *)

Module Driver.
Import Geometry.
Local Open Scope Z_scope.

Definition H3_RESOLUTION_LEVEL : Z := 4.

(** skyfield's sub-satellite point, as far as the program reads it:
    [latitude.degrees], [longitude.degrees], [elevation.km]. *)
Record Geodetic : Type := {
  latitude_degrees : R;
  longitude_degrees : R;
  elevation_km : R
}.

Definition TIME_PER_PROCESS : Z := 1440 `div` 4.
Definition START_TIME (process : Z) : Z := process * TIME_PER_PROCESS.

(** [coverage[cell] += 1] on a [defaultdict(int)]. *)
Definition increment (cell : string) (coverage : gmap string Z) : gmap string Z :=
  <[cell := (default 0 (coverage !! cell) + 1)%Z]> coverage.

(** [for cell in coverage_set: coverage[cell] += 1] *)
Definition accumulate (coverage : gmap string Z) (coverage_set : gset string) : gmap string Z :=
  set_fold increment coverage coverage_set.

(** [for cell in cells: coverage_set.add(cell)] *)
Definition add_cells (coverage_set : gset string) (cells : list string) : gset string :=
  fold_left (fun acc cell => {[cell]} ∪ acc) cells coverage_set.

(** The output writer: the file's name and the strings handed to
    [fd.write], one call per item of [coverage]. *)
Definition output_name (process : Z) : string :=
  "h3_" +:+ str_int H3_RESOLUTION_LEVEL +:+ "_cov_" +:+ str_int process +:+ ".txt".

Definition output_line (item : string * Z) : string :=
  item.1 +:+ "," +:+ str_int item.2 +:+ newline.

Definition write_output (process : Z) (coverage : gmap string Z) : string * list string :=
  (output_name process, map output_line (map_to_list coverage)).

(** [readTokens()] on the lines of [cell_ids.txt]: every line, stripped,
    gets the count 0 in [coverage].  [strip] stands for Python's
    [str.strip]. *)
Definition readTokens (strip : string → string) (lines : list string)
    (coverage : gmap string Z) : gmap string Z :=
  fold_left (fun cov line => let tok := strip line in <[tok := 0]> cov) lines coverage.

(** *** The accumulator *)

Lemma accumulate_lookup coverage coverage_set cell :
  accumulate coverage coverage_set !! cell
  = if decide (cell ∈ coverage_set)
    then Some (default 0 (coverage !! cell) + 1)%Z
    else coverage !! cell.
Proof.
  unfold accumulate. revert cell.
  refine (set_fold_ind_L (λ (r : gmap string Z) (X : gset string), ∀ cell, r !! cell
           = if decide (cell ∈ X) then Some (default 0 (coverage !! cell) + 1)%Z
             else coverage !! cell) increment coverage _ _ coverage_set).
  - intros cell. rewrite decide_False by apply not_elem_of_empty. reflexivity.
  - intros x X r Hx IH cell. unfold increment.
    destruct (decide (x = cell)) as [-> | Hne].
    + rewrite lookup_insert_eq.
      rewrite decide_True by (apply elem_of_union_l, elem_of_singleton; reflexivity).
      rewrite IH, decide_False by exact Hx. reflexivity.
    + rewrite lookup_insert_ne by exact Hne. rewrite IH.
      destruct (decide (cell ∈ X)) as [Hin | Hnin].
      * rewrite decide_True by (apply elem_of_union_r; exact Hin). reflexivity.
      * rewrite decide_False; [reflexivity |].
        intros [Heq%elem_of_singleton | Hin]%elem_of_union; congruence.
Qed.

Lemma elem_of_add_cells cells coverage_set cell :
  cell ∈ add_cells coverage_set cells ↔ cell ∈ coverage_set ∨ cell ∈ cells.
Proof.
  unfold add_cells. revert coverage_set.
  induction cells as [| c cells IH]; intros coverage_set; simpl.
  - split; [auto | intros [H | H]; [exact H | inversion H]].
  - rewrite IH, elem_of_union, elem_of_singleton, elem_of_cons. tauto.
Qed.

Lemma accumulate_bounds coverage coverage_set k :
  0 ≤ k →
  (∀ cell n, coverage !! cell = Some n → 1 ≤ n ≤ k) →
  ∀ cell n, accumulate coverage coverage_set !! cell = Some n → 1 ≤ n ≤ k + 1.
Proof.
  intros Hk Hinv cell n. rewrite accumulate_lookup.
  destruct (decide (cell ∈ coverage_set)).
  - destruct (coverage !! cell) as [m |] eqn:Hm; simpl; intros [= <-].
    + specialize (Hinv cell m Hm). lia.
    + lia.
  - intros Hn. specialize (Hinv cell n Hn). lia.
Qed.

Lemma accumulate_empty coverage : accumulate coverage ∅ = coverage.
Proof.
  apply map_eq. intros cell. rewrite accumulate_lookup.
  rewrite decide_False by apply not_elem_of_empty. reflexivity.
Qed.

(** X7. Accumulation never removes a cell and never lowers a count: the
    keys after a step are the old keys and the step's cells, an old count
    stays or goes up by one, and an empty cell set changes nothing.  Two
    steps can be accumulated in either order. *)
Theorem accumulate_grows_and_commutes
    (coverage : gmap string Z) (cells_a cells_b : gset string) :
  accumulate coverage ∅ = coverage ∧
  dom (accumulate coverage cells_a) = dom coverage ∪ cells_a ∧
  (∀ cell n, coverage !! cell = Some n →
             ∃ m, accumulate coverage cells_a !! cell = Some m ∧ n ≤ m ≤ n + 1) ∧
  accumulate (accumulate coverage cells_a) cells_b
  = accumulate (accumulate coverage cells_b) cells_a.
Proof.
  split; [| split; [| split]].
  - apply accumulate_empty.
  - apply set_eq. intros cell.
    rewrite elem_of_union, !elem_of_dom, accumulate_lookup.
    destruct (decide (cell ∈ cells_a)) as [Hin | Hnin].
    + split; [auto | intros _; eexists; reflexivity].
    + split; [auto | intros [H | H]; [exact H | contradiction]].
  - intros cell n Hn. rewrite accumulate_lookup, Hn. simpl.
    destruct (decide (cell ∈ cells_a)); eexists; (split; [reflexivity | lia]).
  - apply map_eq. intros cell. rewrite !accumulate_lookup.
    destruct (decide (cell ∈ cells_a)), (decide (cell ∈ cells_b)); reflexivity.
Qed.

Lemma readTokens_lookup strip lines coverage cell :
  readTokens strip lines coverage !! cell
  = if decide (cell ∈ map strip lines) then Some 0 else coverage !! cell.
Proof.
  unfold readTokens. revert coverage.
  induction lines as [| line rest IH]; intros coverage; simpl.
  - reflexivity.
  - rewrite IH.
    destruct (decide (cell ∈ map strip rest)) as [Hin | Hnin];
      destruct (decide (cell ∈ strip line :: map strip rest)) as [Hin' | Hnin'].
    + reflexivity.
    + exfalso. apply Hnin'. right. exact Hin.
    + apply elem_of_cons in Hin' as [-> | Hin']; [apply lookup_insert_eq | contradiction].
    + rewrite lookup_insert_ne; [reflexivity |]. intros <-. apply Hnin'. left.
Qed.

(** X8. [readTokens] sets the count of every stripped line of the file to
    0, whatever it was, and leaves every other cell as it was; reading the
    same file again changes nothing. *)
Theorem readTokens_resets_listed_cells
    (strip : string → string) (lines : list string) (coverage : gmap string Z) :
  (∀ cell, cell ∈ map strip lines →
           readTokens strip lines coverage !! cell = Some 0) ∧
  (∀ cell, cell ∉ map strip lines →
           readTokens strip lines coverage !! cell = coverage !! cell) ∧
  dom (readTokens strip lines coverage)
  = dom coverage ∪ list_to_set (map strip lines) ∧
  readTokens strip lines (readTokens strip lines coverage)
  = readTokens strip lines coverage.
Proof.
  split; [| split; [| split]].
  - intros cell Hin. rewrite readTokens_lookup, decide_True by exact Hin. reflexivity.
  - intros cell Hnin. rewrite readTokens_lookup, decide_False by exact Hnin. reflexivity.
  - apply set_eq. intros cell.
    rewrite elem_of_union, !elem_of_dom, readTokens_lookup, elem_of_list_to_set.
    destruct (decide (cell ∈ map strip lines)) as [Hin | Hnin].
    + split; [auto | intros _; eexists; reflexivity].
    + split; [auto | intros [H | H]; [exact H | contradiction]].
  - apply map_eq. intros cell. rewrite !readTokens_lookup.
    destruct (decide (cell ∈ map strip lines)); reflexivity.
Qed.

Lemma elem_of_range n i : In i (range n) ↔ 0 ≤ i < n.
Proof.
  unfold range. rewrite in_map_iff. split.
  - intros (k & <- & Hk%in_seq). lia.
  - intros Hi. exists (Z.to_nat i). split; [lia | apply in_seq; lia].
Qed.

(** X9. The windows of the processes tile the day: two different
    (process, step) pairs never ask for the same minute, every minute of
    the 1440 belongs to a step of one of the processes 0..3, and the window
    of process [p + 1] starts where that of [p] ends. *)
Theorem partition_windows_tile_the_day :
  (∀ p1 p2 i1 i2,
     In i1 (range TIME_PER_PROCESS) → In i2 (range TIME_PER_PROCESS) →
     START_TIME p1 + i1 = START_TIME p2 + i2 → p1 = p2 ∧ i1 = i2) ∧
  (∀ m, 0 ≤ m < 1440 →
        ∃ p i, 0 ≤ p < 4 ∧ In i (range TIME_PER_PROCESS) ∧ m = START_TIME p + i) ∧
  (∀ p, START_TIME (p + 1) = START_TIME p + TIME_PER_PROCESS).
Proof.
  unfold START_TIME. change TIME_PER_PROCESS with 360.
  split; [| split].
  - intros p1 p2 i1 i2 H1%elem_of_range H2%elem_of_range Heq. lia.
  - intros m Hm. exists (m `div` 360), (m `mod` 360).
    pose proof (Z.div_mod m 360 ltac:(lia)) as Hdm.
    pose proof (Z.mod_pos_bound m 360 ltac:(lia)) as Hmod.
    split; [| split].
    + split; [apply Z.div_pos; lia | apply Z.div_lt_upper_bound; lia].
    + apply elem_of_range. exact Hmod.
    + lia.
  - intros p. lia.
Qed.

(** X10. Different processes write to different files: the file name
    determines the process index. *)
Theorem output_name_determines_process (p1 p2 : Z) :
  output_name p1 = output_name p2 ↔ p1 = p2.
Proof.
  split; [| intros ->; reflexivity].
  unfold output_name. intros H. simpl in H. injection H as H.
  apply str_int_inj.
  apply (split_at_first_char "."%char _ _ "txt" "txt");
    [apply count_dot_str_int | apply count_dot_str_int | exact H].
Qed.

(** X11. An output line can be read back in one way only: for cell
    identifiers without a comma the line determines the cell and the count,
    and the count field read as a decimal number is the count. *)
Theorem output_line_reads_back (cell1 cell2 : string) (n1 n2 : Z) :
  count_char "," cell1 = 0%nat → count_char "," cell2 = 0%nat →
  (output_line (cell1, n1) = output_line (cell2, n2) ↔ cell1 = cell2 ∧ n1 = n2) ∧
  option_map Z.of_int (NilZero.int_of_string (str_int n1)) = Some n1.
Proof.
  intros H1 H2. split.
  - split; [| intros [-> ->]; reflexivity].
    unfold output_line, newline. simpl. intros H.
    apply (split_at_first_char ","%char) in H as [-> H]; [| exact H1 | exact H2].
    split; [reflexivity |]. apply str_int_inj.
    apply (split_at_first_char (ascii_of_nat 10) _ _ "" "");
      [apply count_char_str_int; auto | apply count_char_str_int; auto | exact H].
  - rewrite str_int_read_back. simpl. f_equal. apply DecimalZ.of_to.
Qed.

Lemma output_line_reads_back_witness :
  count_char "," "8428309ffffffff" = 0%nat ∧
  count_char "," "8428309ffffffff" = 0%nat ∧
  (output_line ("8428309ffffffff", 360) = output_line ("8428309ffffffff", 360)
   ↔ "8428309ffffffff" = "8428309ffffffff" ∧ 360 = 360) ∧
  option_map Z.of_int (NilZero.int_of_string (str_int 360)) = Some 360.
Proof.
  split; [reflexivity |]. split; [reflexivity |].
  exact (output_line_reads_back "8428309ffffffff" "8428309ffffffff" 360 360
           eq_refl eq_refl).
Defined.

Section Program.

(** skyfield: satellites, times and the propagator. *)
Variable EarthSatellite : Type.
Variable Time : Type.
Variable sat_name : EarthSatellite → string.
Variable ts_utc : Z → Z → Z → Z → Z → Z → Time.
Variable subpoint_at : EarthSatellite → Time → result Geodetic.

(** geog, shapely and h3: the geodesic-forward step for one bearing, the
    polygon built from the ring of points, and the fill of a polygon with
    cells of a resolution. *)
Variable geog_propagate : R * R → R → R → R * R.
Variable Mapping : Type.
Variable polygon_mapping : list (R * R) → result Mapping.
Variable h3_polyfill : Mapping → Z → bool → result (list string).

(** The catalogue [load_sats()] returned. *)
Variable sats : list EarthSatellite.

(** *** Computations that call the propagator

    The state is the log of the calls [sat.at(time).subpoint()] made so
    far; an exception leaves the log as it was when it was raised. *)
Definition call : Type := EarthSatellite * Time.
Definition M (A : Type) : Type := list call → result A * list call.

Definition mret {A} (a : A) : M A := fun log => (Ok a, log).
Definition mbind {A B} (c : M A) (k : A → M B) : M B :=
  fun log =>
    match c log with
    | (Ok a, log') => k a log'
    | (Raise e, log') => (Raise e, log')
    end.
Definition lift {A} (r : result A) : M A := fun log => (r, log).
Definition propagate_sat (sat : EarthSatellite) (time : Time) : M Geodetic :=
  fun log => (subpoint_at sat time, log ++ [(sat, time)]).

Fixpoint for_each_M {S A} (body : S → A → M S) (l : list A) (s : S) : M S :=
  match l with
  | [] => mret s
  | x :: rest => mbind (body s x) (for_each_M body rest)
  end.

(** *** The grid mapper *)

Definition get_cell_ids_h3 (lat lng angle : R) : result (list string) :=
  let p := (lng, lat) in
  let arc_length := (R_MEAN * angle)%R in
  let n_points := 20%nat in
  let d := (arc_length * 1000)%R in
  let angles := np_linspace 0 360 n_points in
  let polygon := map (fun a => geog_propagate p a d) angles in
  match polygon_mapping polygon with
  | Ok mapping => h3_polyfill mapping H3_RESOLUTION_LEVEL true
  | Raise (ValueError _) =>
      (* the handler prints and falls through: [mapping] was never bound *)
      Raise (UnboundLocalError "mapping")
  | Raise e => Raise e
  end.

(** *** The driver loop *)

(** [{sat.name : sat.at(time).subpoint() for sat in sats}] *)
Definition subpoints_at (time : Time) : M (list (string * Geodetic)) :=
  for_each_M
    (fun d sat => mbind (propagate_sat sat time)
                        (fun sp => mret (dict_set (sat_name sat) sp d)))
    sats [].

(** The body of [for sat_name, sat in subpoints.items()]. *)
Definition sat_body (coverage_set : gset string) (item : string * Geodetic)
  : result (gset string) :=
  let sat := item.2 in
  (let? angle := calcCapAngle (elevation_km sat) 35 in
   let? cells := get_cell_ids_h3 (latitude_degrees sat) (longitude_degrees sat) angle in
   let? _ := (if (length cells =? 0)%nat
              then expr_stmt (Exception "empty region returned")
              else Ok tt) in
   Ok (add_cells coverage_set cells))%result.

(** The body of [for i in range(TIME_PER_PROCESS)]; the progress line
    printed every 30 steps goes to the console and is left out. *)
Definition loop_body (process : Z) (coverage : gmap string Z) (i : Z)
  : M (gmap string Z) :=
  let time := ts_utc 2020 6 20 0 (START_TIME process + i) 0 in
  mbind (subpoints_at time) (fun subpoints =>
  mbind (lift (for_each sat_body subpoints ∅)) (fun coverage_set =>
  mret (accumulate coverage coverage_set))).

Definition run_steps (process : Z) (steps : list Z) (coverage : gmap string Z)
  : M (gmap string Z) :=
  for_each_M (loop_body process) steps coverage.

Definition main_loop (process : Z) : M (gmap string Z) :=
  run_steps process (range TIME_PER_PROCESS) ∅.

(** The whole script for [process = int(sys.argv[1])], run at time [now]:
    the lines before the loop look up one satellite by name and compute
    its cap, then the loop runs and the file is written. *)
Definition script (process : Z) (now : Time) : M (string * list string) :=
  mbind (subpoints_at now) (fun subpoints =>
  mbind (lift (dict_get "STARLINK-1284" subpoints)) (fun sat1 =>
  mbind (lift (calcCapAngle (elevation_km sat1) 35)) (fun angle =>
  mbind (main_loop process) (fun coverage =>
  mret (write_output process coverage))))).

(** *** Specification-side definitions *)

(** The time of step [i] of process [process]. *)
Definition time_of (process i : Z) : Time :=
  ts_utc 2020 6 20 0 (START_TIME process + i) 0.

(** The propagator calls of one step, in order. *)
Definition calls_at (time : Time) : list call := map (fun sat => (sat, time)) sats.

(** The dictionary comprehension and the step's cell set without the log. *)
Definition subpoints_pure (time : Time) : result (list (string * Geodetic)) :=
  for_each (fun d sat => rbind (subpoint_at sat time)
                               (fun sp => Ok (dict_set (sat_name sat) sp d)))
           sats [].

Definition coverage_set_at (time : Time) : result (gset string) :=
  rbind (subpoints_pure time) (fun subpoints => for_each sat_body subpoints ∅).

(** A cell is covered by the satellites of [subpoints] when the cell set
    computed for one of them holds it. *)
Definition covered_by (subpoints : list (string * Geodetic)) (cell : string) : Prop :=
  ∃ item angle cells,
    item ∈ subpoints ∧
    calcCapAngle (elevation_km item.2) 35 = Ok angle ∧
    get_cell_ids_h3 (latitude_degrees item.2) (longitude_degrees item.2) angle = Ok cells ∧
    cell ∈ cells.

(** Whether the cell set of step [i] holds [cell], and in how many of the
    steps it does. *)
Definition covers (process : Z) (cell : string) (i : Z) : bool :=
  match coverage_set_at (time_of process i) with
  | Ok coverage_set => bool_decide (cell ∈ coverage_set)
  | Raise _ => false
  end.

Definition visits (process : Z) (cell : string) (steps : list Z) : Z :=
  Z.of_nat (length (List.filter (covers process cell) steps)).

(** The ring of points the grid mapper hands to shapely. *)
Definition cap_ring (lat lng angle : R) : list (R * R) :=
  map (fun a => geog_propagate (lng, lat) a (R_MEAN * angle * 1000)%R)
      (np_linspace 0 360 20).

(** *** The inner loop *)

Lemma sat_body_inv coverage_set item coverage_set' :
  sat_body coverage_set item = Ok coverage_set' →
  ∃ angle cells,
    calcCapAngle (elevation_km item.2) 35 = Ok angle ∧
    get_cell_ids_h3 (latitude_degrees item.2) (longitude_degrees item.2) angle = Ok cells ∧
    coverage_set' = add_cells coverage_set cells.
Proof.
  unfold sat_body.
  destruct (calcCapAngle _ _) as [angle |] eqn:Ha; [| discriminate]. simpl.
  destruct (get_cell_ids_h3 _ _ _) as [cells |] eqn:Hc; [| discriminate]. simpl.
  destruct (length cells =? 0)%nat; simpl; intros [= <-];
    exists angle, cells; auto.
Qed.

Lemma sat_body_ok coverage_set item angle cells :
  calcCapAngle (elevation_km item.2) 35 = Ok angle →
  get_cell_ids_h3 (latitude_degrees item.2) (longitude_degrees item.2) angle = Ok cells →
  sat_body coverage_set item = Ok (add_cells coverage_set cells).
Proof.
  intros Ha Hc. unfold sat_body. rewrite Ha. simpl. rewrite Hc. simpl.
  destruct (length cells =? 0)%nat; reflexivity.
Qed.

Lemma inner_loop_cells subpoints coverage_set coverage_set' :
  for_each sat_body subpoints coverage_set = Ok coverage_set' →
  ∀ cell, cell ∈ coverage_set' ↔ cell ∈ coverage_set ∨ covered_by subpoints cell.
Proof.
  revert coverage_set. induction subpoints as [| item rest IH]; intros cs; simpl.
  - intros [= <-] cell. unfold covered_by. split; [auto |].
    intros [H | (item & ? & ? & H & _)]; [exact H | inversion H].
  - destruct (sat_body cs item) as [cs1 |] eqn:Hbody; [| discriminate]. simpl.
    intros Hrest cell. rewrite (IH _ Hrest).
    apply sat_body_inv in Hbody as (angle & cells & Ha & Hc & ->).
    rewrite elem_of_add_cells. unfold covered_by. split.
    + intros [[H | H] | (it & a & c & Hin & H1 & H2 & H3)].
      * auto.
      * right. exists item, angle, cells. repeat split; [left | ..]; assumption.
      * right. exists it, a, c. repeat split; [right | ..]; assumption.
    + intros [H | (it & a & c & Hin & H1 & H2 & H3)]; [auto |].
      apply elem_of_cons in Hin as [-> | Hin].
      * left. right. congruence.
      * right. exists it, a, c. auto.
Qed.

(** *** The log and the result of the monadic loops *)

Definition step_pure (process : Z) (coverage : gmap string Z) (i : Z)
  : result (gmap string Z) :=
  rbind (coverage_set_at (time_of process i))
        (fun coverage_set => Ok (accumulate coverage coverage_set)).

Definition all_calls (process : Z) (steps : list Z) : list call :=
  flat_map (fun i => calls_at (time_of process i)) steps.

Lemma comprehension_run time l d log :
  ∃ calls,
    for_each_M (fun d sat => mbind (propagate_sat sat time)
                                   (fun sp => mret (dict_set (sat_name sat) sp d)))
               l d log
    = (for_each (fun d sat => rbind (subpoint_at sat time)
                                    (fun sp => Ok (dict_set (sat_name sat) sp d)))
                l d,
       log ++ calls) ∧
    calls `prefix_of` map (fun sat => (sat, time)) l ∧
    (is_ok (for_each (fun d sat => rbind (subpoint_at sat time)
                                         (fun sp => Ok (dict_set (sat_name sat) sp d)))
                     l d) = true →
     calls = map (fun sat => (sat, time)) l).
Proof.
  revert d log. induction l as [| sat rest IH]; intros d log; simpl.
  - exists []. unfold mret. rewrite app_nil_r. repeat split. reflexivity.
  - unfold mbind at 1, propagate_sat at 1.
    destruct (subpoint_at sat time) as [sp | e]; simpl.
    + destruct (IH (dict_set (sat_name sat) sp d) (log ++ [(sat, time)]))
        as (calls & Hrun & Hpre & Hok).
      exists ((sat, time) :: calls). rewrite Hrun.
      rewrite <- app_assoc. repeat split.
      * apply prefix_cons. exact Hpre.
      * intros H. f_equal. auto.
    + exists [(sat, time)]. repeat split.
      * exists (map (fun sat => (sat, time)) rest). reflexivity.
      * discriminate.
Qed.

Lemma subpoints_at_run time log :
  ∃ calls,
    subpoints_at time log = (subpoints_pure time, log ++ calls) ∧
    calls `prefix_of` calls_at time ∧
    (is_ok (subpoints_pure time) = true → calls = calls_at time).
Proof. apply comprehension_run. Qed.

Lemma loop_body_run process coverage i log :
  ∃ calls,
    loop_body process coverage i log = (step_pure process coverage i, log ++ calls) ∧
    calls `prefix_of` calls_at (time_of process i) ∧
    (is_ok (subpoints_pure (time_of process i)) = true →
     calls = calls_at (time_of process i)) ∧
    (is_ok (step_pure process coverage i) = true → calls = calls_at (time_of process i)).
Proof.
  unfold loop_body, step_pure, coverage_set_at. fold (time_of process i).
  destruct (subpoints_at_run (time_of process i) log) as (calls & Hrun & Hpre & Hok).
  exists calls. unfold mbind at 1. rewrite Hrun.
  destruct (subpoints_pure (time_of process i)) as [subpoints | e]; simpl.
  - unfold mbind, lift, mret.
    destruct (for_each sat_body subpoints ∅) as [coverage_set | e]; simpl; auto.
  - repeat split; [exact Hpre | discriminate | discriminate].
Qed.

Lemma run_steps_cons process i rest coverage log :
  run_steps process (i :: rest) coverage log
  = match loop_body process coverage i log with
    | (Ok coverage1, log1) => run_steps process rest coverage1 log1
    | (Raise e, log1) => (Raise e, log1)
    end.
Proof. reflexivity. Qed.

Lemma run_steps_head_raise process i rest coverage log e log' :
  loop_body process coverage i log = (Raise e, log') →
  run_steps process (i :: rest) coverage log = (Raise e, log').
Proof. intros H. unfold run_steps. simpl. unfold mbind. rewrite H. reflexivity. Qed.

Lemma run_steps_run process steps coverage log :
  ∃ calls,
    run_steps process steps coverage log
    = (for_each (step_pure process) steps coverage, log ++ calls) ∧
    calls `prefix_of` all_calls process steps ∧
    (is_ok (for_each (step_pure process) steps coverage) = true →
     calls = all_calls process steps).
Proof.
  unfold run_steps. revert coverage log.
  induction steps as [| i rest IH]; intros coverage log; simpl.
  - exists []. unfold mret. rewrite app_nil_r. repeat split. reflexivity.
  - destruct (loop_body_run process coverage i log) as (c1 & Hrun & Hpre & _ & Hok).
    unfold mbind at 1. rewrite Hrun.
    destruct (step_pure process coverage i) as [coverage1 | e]; simpl.
    + destruct (IH coverage1 (log ++ c1)) as (c2 & Hrun2 & Hpre2 & Hok2).
      rewrite Hrun2, <- app_assoc. exists (c1 ++ c2).
      rewrite (Hok eq_refl). repeat split.
      * apply prefix_app. exact Hpre2.
      * intros H. f_equal. auto.
    + exists c1. repeat split; [| discriminate].
      apply prefix_app_r. exact Hpre.
Qed.

(** A step that raises stops the loop: the later steps make no call. *)
Lemma run_steps_raise process before i after coverage log e :
  coverage_set_at (time_of process i) = Raise e →
  ∃ e' calls,
    run_steps process (before ++ i :: after) coverage log = (Raise e', log ++ calls) ∧
    calls `prefix_of` all_calls process (before ++ [i]).
Proof.
  intros Hi. unfold run_steps. revert coverage log.
  induction before as [| x before IH]; intros coverage log; simpl.
  - destruct (loop_body_run process coverage i log) as (c1 & Hrun & Hpre & _ & _).
    unfold mbind at 1. rewrite Hrun. unfold step_pure. rewrite Hi. simpl.
    exists e, c1. split; [reflexivity |]. unfold all_calls. simpl.
    rewrite app_nil_r. exact Hpre.
  - destruct (loop_body_run process coverage x log) as (c1 & Hrun & Hpre & _ & Hok).
    unfold mbind at 1. rewrite Hrun.
    destruct (step_pure process coverage x) as [coverage1 | e1]; simpl.
    + destruct (IH coverage1 (log ++ c1)) as (e' & c2 & Hrun2 & Hpre2).
      rewrite Hrun2, <- app_assoc. exists e', (c1 ++ c2). split; [reflexivity |].
      rewrite (Hok eq_refl). apply prefix_app. exact Hpre2.
    + exists e1, c1. split; [reflexivity |]. apply prefix_app_r. exact Hpre.
Qed.

Lemma main_loop_steps : range TIME_PER_PROCESS = map Z.of_nat (seq 0 360).
Proof. reflexivity. Qed.


(** *** The claims about one step *)

(** C1. In every step of the driver loop that completes, the count of a
    cell that the cell set of at least one satellite holds goes up by
    exactly 1, however many satellites hold it, and every other count is
    left as it was: the increment is over the union of the cell sets. *)
Theorem step_increments_union_once
    (process : Z) (coverage : gmap string Z) (i : Z) (log : list call)
    (coverage' : gmap string Z) (log' : list call) :
  loop_body process coverage i log = (Ok coverage', log') →
  ∃ subpoints,
    (subpoints_at (time_of process i) log).1 = Ok subpoints ∧
    ∀ cell,
      (covered_by subpoints cell →
       coverage' !! cell = Some (default 0 (coverage !! cell) + 1)%Z) ∧
      (¬ covered_by subpoints cell → coverage' !! cell = coverage !! cell).
Proof.
  intros Hstep.
  destruct (loop_body_run process coverage i log) as (calls & Hrun & _ & _ & _).
  rewrite Hrun in Hstep. apply pair_equal_spec in Hstep as [Hpure _].
  unfold step_pure, coverage_set_at in Hpure.
  destruct (subpoints_at_run (time_of process i) log) as (c & Hsub & _ & _).
  rewrite Hsub. simpl.
  destruct (subpoints_pure (time_of process i)) as [subpoints |]; [| discriminate].
  simpl in Hpure.
  destruct (for_each sat_body subpoints ∅) as [coverage_set |] eqn:Hinner;
    [| discriminate].
  simpl in Hpure. injection Hpure as <-.
  exists subpoints. split; [reflexivity |]. intros cell.
  pose proof (inner_loop_cells _ _ _ Hinner cell) as Hcell.
  rewrite accumulate_lookup. split; intros Hcov.
  - rewrite decide_True; [reflexivity |]. apply Hcell. right. exact Hcov.
  - rewrite decide_False; [reflexivity |].
    intros [Hin | Hin]%Hcell; [| contradiction].
    exact (not_elem_of_empty _ Hin).
Qed.

(** C5. When the grid mapper returns no cell for a satellite, the
    exception object is built and dropped: nothing is raised, the
    satellite leaves the step's cell set as it was, and the loop over the
    satellites goes on as if that satellite were not there. *)
Theorem empty_cells_not_enforced
    (coverage_set : gset string) (item : string * Geodetic) (angle : R)
    (before after : list (string * Geodetic)) :
  calcCapAngle (elevation_km item.2) 35 = Ok angle →
  get_cell_ids_h3 (latitude_degrees item.2) (longitude_degrees item.2) angle = Ok [] →
  expr_stmt (Exception "empty region returned") = Ok () ∧
  sat_body coverage_set item = Ok coverage_set ∧
  ∀ start,
    for_each sat_body (before ++ item :: after) start
    = for_each sat_body (before ++ after) start.
Proof.
  intros Ha Hc.
  assert (∀ cs, sat_body cs item = Ok cs) as Hbody.
  { intros cs. rewrite (sat_body_ok cs item angle [] Ha Hc). reflexivity. }
  split; [reflexivity |]. split; [apply Hbody |].
  induction before as [| x before IH]; intros start; simpl.
  - rewrite Hbody. reflexivity.
  - destruct (sat_body start x) as [cs1 |]; simpl; [apply IH | reflexivity].
Qed.

(** *** The ring of the grid mapper *)


(** *** The claims about the whole loop *)

Lemma run_pure_bounds process steps coverage coverage' k :
  for_each (step_pure process) steps coverage = Ok coverage' →
  0 ≤ k →
  (∀ cell n, coverage !! cell = Some n → 1 ≤ n ≤ k) →
  ∀ cell n, coverage' !! cell = Some n → 1 ≤ n ≤ k + Z.of_nat (length steps).
Proof.
  revert coverage k. induction steps as [| i rest IH]; intros coverage k; simpl.
  - intros [= <-] Hk Hinv cell n Hn. specialize (Hinv cell n Hn). lia.
  - destruct (step_pure process coverage i) as [coverage1 |] eqn:Hstep;
      [| discriminate]. simpl.
    intros Hrest Hk Hinv cell n Hn.
    unfold step_pure in Hstep.
    destruct (coverage_set_at (time_of process i)) as [cells |]; [| discriminate].
    simpl in Hstep. injection Hstep as <-.
    pose proof (IH _ (k + 1) Hrest ltac:(lia)
                  (accumulate_bounds coverage cells k Hk Hinv) cell n Hn).
    lia.
Qed.

(** C9. After [k] completed iterations of the driver loop every count in
    the map lies between 1 and [k]; every count that the writer prints is
    between 1 and [TIME_PER_PROCESS = 360]. *)
Theorem visit_counts_bounded
    (process : Z) (k : nat) (log : list call)
    (coverage : gmap string Z) (log' : list call) :
  (k ≤ 360)%nat →
  run_steps process (take k (range TIME_PER_PROCESS)) ∅ log = (Ok coverage, log') →
  (∀ cell n, coverage !! cell = Some n → 1 ≤ n ≤ Z.of_nat k) ∧
  (∀ line, In line (write_output process coverage).2 →
           ∃ cell n, line = output_line (cell, n) ∧
                     coverage !! cell = Some n ∧ 1 ≤ n ≤ TIME_PER_PROCESS) ∧
  (k = 360%nat → main_loop process log = (Ok coverage, log')).
Proof.
  intros Hk Hrun.
  assert (∀ cell n, coverage !! cell = Some n → 1 ≤ n ≤ Z.of_nat k) as Hinv.
  { destruct (run_steps_run process (take k (range TIME_PER_PROCESS)) ∅ log)
      as (calls & Heq & _ & _).
    rewrite Heq in Hrun. apply pair_equal_spec in Hrun as [Hpure _].
    intros cell n Hn.
    pose proof (run_pure_bounds _ _ _ _ 0 Hpure ltac:(lia)
                  ltac:(intros c m; rewrite lookup_empty; discriminate) cell n Hn)
      as Hb.
    rewrite length_take, main_loop_steps, length_map, length_seq in Hb. lia. }
  split; [exact Hinv |]. split.
  - intros line Hline. unfold write_output in Hline. simpl in Hline.
    apply in_map_iff in Hline as ([cell n] & <- & Hin).
    apply list_elem_of_In, elem_of_map_to_list in Hin.
    exists cell, n. split; [reflexivity |]. split; [exact Hin |].
    specialize (Hinv cell n Hin). change TIME_PER_PROCESS with 360. lia.
  - intros ->. unfold main_loop. rewrite <- Hrun. f_equal.
Qed.

Lemma inner_loop_raises subpoints item e start :
  item ∈ subpoints →
  calcCapAngle (elevation_km item.2) 35 = Raise e →
  ∃ e', for_each sat_body subpoints start = Raise e'.
Proof.
  intros Hin Hcap. revert start.
  induction subpoints as [| x rest IH]; intros start; [inversion Hin |].
  simpl. destruct (sat_body start x) as [cs1 | e1] eqn:Hbody; simpl.
  - apply elem_of_cons in Hin as [-> | Hin]; [| apply IH; exact Hin].
    apply sat_body_inv in Hbody as (angle & _ & Ha & _). congruence.
  - exists e1. reflexivity.
Qed.

Lemma main_loop_raises process k i e :
  range TIME_PER_PROCESS !! k = Some i →
  coverage_set_at (time_of process i) = Raise e →
  ∀ log, ∃ e' calls,
    main_loop process log = (Raise e', log ++ calls) ∧
    calls `prefix_of` all_calls process (take (S k) (range TIME_PER_PROCESS)).
Proof.
  intros Hk Hi log. unfold main_loop.
  destruct (run_steps_raise process (take k (range TIME_PER_PROCESS)) i
              (drop (S k) (range TIME_PER_PROCESS)) ∅ log e Hi)
    as (e' & calls & Hrun & Hpre).
  rewrite (take_drop_middle _ _ _ Hk) in Hrun.
  exists e', calls. rewrite (take_S_r _ _ _ Hk). split; assumption.
Qed.

Lemma script_raises process now :
  (∀ log, ∃ e log', main_loop process log = (Raise e, log')) →
  ∀ log, ∃ e log', script process now log = (Raise e, log').
Proof.
  intros Hmain log. unfold script.
  destruct (subpoints_at_run now log) as (calls & Hsub & _ & _).
  unfold mbind at 1. rewrite Hsub.
  destruct (subpoints_pure now) as [subpoints | e]; [| eauto].
  unfold mbind at 1, lift at 1.
  destruct (dict_get "STARLINK-1284" subpoints) as [sat1 | e]; [| eauto].
  unfold mbind at 1, lift at 1.
  destruct (calcCapAngle (elevation_km sat1) 35) as [angle | e]; [| eauto].
  unfold mbind at 1.
  destruct (Hmain (log ++ calls)) as (e & log' & ->). eauto.
Qed.

(** A script that ends normally has written the map of the driver loop. *)
Lemma script_output process now log file log' :
  script process now log = (Ok file, log') →
  ∃ coverage log0,
    main_loop process log0 = (Ok coverage, log') ∧
    file = write_output process coverage.
Proof.
  unfold script.
  destruct (subpoints_at_run now log) as (calls & Hsub & _ & _).
  unfold mbind at 1. rewrite Hsub.
  destruct (subpoints_pure now) as [subpoints | e]; [| discriminate].
  unfold mbind at 1, lift at 1.
  destruct (dict_get "STARLINK-1284" subpoints) as [sat1 | e]; [| discriminate].
  unfold mbind at 1, lift at 1.
  destruct (calcCapAngle (elevation_km sat1) 35) as [angle | e]; [| discriminate].
  unfold mbind at 1.
  destruct (main_loop process (log ++ calls)) as [[coverage | e] log1] eqn:Hmain;
    [| discriminate].
  unfold mret. intros [= <- <-]. exists coverage, (log ++ calls). auto.
Qed.

(** C4, as the code has it.  Nothing catches the [ValueError] of
    [math.asin]: when the cap angle of a satellite of some step is outside
    the domain, the driver loop raises at that step or earlier, makes no
    propagator call for any later step, and the script raises as well, so
    no output is written. *)
Theorem domain_error_aborts_run
    (process : Z) (k : nat) (i : Z) (subpoints : list (string * Geodetic))
    (item : string * Geodetic) (msg : string) (now : Time) (log : list call) :
  range TIME_PER_PROCESS !! k = Some i →
  (subpoints_at (time_of process i) log).1 = Ok subpoints →
  item ∈ subpoints →
  calcCapAngle (elevation_km item.2) 35 = Raise (ValueError msg) →
  (∃ e calls,
     main_loop process log = (Raise e, log ++ calls) ∧
     calls `prefix_of` all_calls process (take (S k) (range TIME_PER_PROCESS))) ∧
  (∃ e log', script process now log = (Raise e, log')).
Proof.
  intros Hk Hsub Hin Hcap.
  destruct (subpoints_at_run (time_of process i) log) as (c & Heq & _ & _).
  rewrite Heq in Hsub. simpl in Hsub.
  assert (∃ e, coverage_set_at (time_of process i) = Raise e) as [e He].
  { unfold coverage_set_at. rewrite Hsub. simpl.
    apply inner_loop_raises with (item := item) (e := ValueError msg); assumption. }
  split.
  - apply main_loop_raises with (i := i) (e := e); assumption.
  - apply script_raises. intros log0.
    destruct (main_loop_raises process k i e Hk He log0) as (e' & calls & Hrun & _).
    eauto.
Qed.

(** *** The dictionary of sub-points *)

Lemma comprehension_keys time l d d' :
  for_each (fun d sat => rbind (subpoint_at sat time)
                               (fun sp => Ok (dict_set (sat_name sat) sp d)))
           l d = Ok d' →
  (NoDup d.*1 → NoDup d'.*1) ∧
  (∀ name, name ∈ d'.*1 ↔ name ∈ d.*1 ∨ name ∈ map sat_name l) ∧
  (length d' ≤ length d + length l)%nat.
Proof using EarthSatellite Time sat_name subpoint_at sats.
  clear ts_utc geog_propagate polygon_mapping h3_polyfill.
  revert d. induction l as [| sat rest IH]; intros d; simpl.
  - intros [= <-]. split; [auto |]. split; [| lia].
    intros name. split; [auto | intros [H | H]; [exact H | destruct (not_elem_of_nil _ H)]].
  - destruct (subpoint_at sat time) as [sp |]; [| discriminate]. simpl.
    intros Hrest. destruct (IH _ Hrest) as (Hnd & Hkeys & Hlen).
    assert (length (dict_set (sat_name sat) sp d) ≤ length d + 1)%nat as Hl.
    { rewrite <- !(length_fmap fst), dict_set_keys.
      destruct (decide (sat_name sat ∈ d.*1)); [lia | rewrite length_app; simpl; lia]. }
    rewrite dict_set_keys in Hnd, Hkeys.
    destruct (decide (sat_name sat ∈ d.*1)) as [Hin | Hnin].
    + split; [exact Hnd |]. split; [| lia].
      intros name. rewrite Hkeys, elem_of_cons. split; [tauto |].
      intros [H | [-> | H]]; auto.
    + split; [| split; [| lia]].
      * intros Hd. apply Hnd. apply NoDup_app. split; [exact Hd |].
        split; [| apply NoDup_singleton].
        intros x Hx ->%list_elem_of_singleton. contradiction.
      * intros name. rewrite Hkeys, elem_of_app, list_elem_of_singleton, elem_of_cons.
        tauto.
Qed.

Lemma comprehension_get_other time l d d' name :
  for_each (fun d sat => rbind (subpoint_at sat time)
                               (fun sp => Ok (dict_set (sat_name sat) sp d)))
           l d = Ok d' →
  name ∉ map sat_name l → dict_get name d' = dict_get name d.
Proof using EarthSatellite Time sat_name subpoint_at sats.
  clear ts_utc geog_propagate polygon_mapping h3_polyfill.
  revert d. induction l as [| sat rest IH]; intros d; simpl.
  - intros [= <-] _. reflexivity.
  - destruct (subpoint_at sat time) as [sp |]; [| discriminate]. simpl.
    intros Hrest [Hne Hnin]%not_elem_of_cons.
    rewrite (IH _ Hrest Hnin). apply dict_get_set_ne. congruence.
Qed.

(** X12. The dictionary of sub-points has each satellite name once, has
    exactly the names of the catalogue as keys and at most as many items as
    there are satellites; looking up a name gives the sub-point of the last
    satellite of the catalogue with that name. *)
Theorem subpoints_last_name_wins
    (time : Time) (log : list call) (subpoints : list (string * Geodetic)) :
  (subpoints_at time log).1 = Ok subpoints →
  NoDup subpoints.*1 ∧
  (∀ name, name ∈ subpoints.*1 ↔ name ∈ map sat_name sats) ∧
  (length subpoints ≤ length sats)%nat ∧
  (∀ before sat after,
     sats = before ++ sat :: after →
     sat_name sat ∉ map sat_name after →
     dict_get (sat_name sat) subpoints = subpoint_at sat time).
Proof using EarthSatellite Time sat_name subpoint_at sats.
  clear ts_utc geog_propagate polygon_mapping h3_polyfill.
  intros Hsub.
  destruct (subpoints_at_run time log) as (calls & Heq & _ & _).
  rewrite Heq in Hsub. simpl in Hsub. unfold subpoints_pure in Hsub.
  destruct (comprehension_keys time sats [] subpoints Hsub) as (Hnd & Hkeys & Hlen).
  split; [apply Hnd; constructor |]. split; [| split; [exact Hlen |]].
  - intros name. rewrite Hkeys. split; [| auto].
    intros [H | H]; [destruct (not_elem_of_nil _ H) | exact H].
  - intros before sat after Hsats Hlast. rewrite Hsats in Hsub.
    rewrite for_each_app in Hsub.
    destruct (for_each _ before []) as [d1 |]; [| discriminate].
    simpl in Hsub.
    destruct (subpoint_at sat time) as [sp |]; [| discriminate]. simpl in Hsub.
    rewrite (comprehension_get_other _ _ _ _ _ Hsub Hlast).
    apply dict_get_set_eq.
Qed.

(** *** A polygon that shapely refuses *)

Lemma inner_loop_raises_at subpoints item start :
  item ∈ subpoints →
  (∀ coverage_set, is_ok (sat_body coverage_set item) = false) →
  ∃ e, for_each sat_body subpoints start = Raise e.
Proof.
  intros Hin Hbody. revert start.
  induction subpoints as [| x rest IH]; intros start; [inversion Hin |].
  simpl. destruct (sat_body start x) as [cs1 | e1] eqn:Hx; simpl.
  - apply elem_of_cons in Hin as [-> | Hin]; [| apply IH; exact Hin].
    specialize (Hbody start). rewrite Hx in Hbody. discriminate.
  - exists e1. reflexivity.
Qed.

(** X13. When shapely refuses the ring with a [ValueError], the handler of
    the grid mapper swallows it, and the mapper then fails with
    [UnboundLocalError] on [mapping]; the satellite's body raises that error
    and the driver loop stops at that step or earlier. *)
Theorem polygon_error_becomes_unbound_local
    (process : Z) (k : nat) (i : Z) (subpoints : list (string * Geodetic))
    (item : string * Geodetic) (angle : R) (msg : string) (log : list call) :
  range TIME_PER_PROCESS !! k = Some i →
  (subpoints_at (time_of process i) log).1 = Ok subpoints →
  item ∈ subpoints →
  calcCapAngle (elevation_km item.2) 35 = Ok angle →
  polygon_mapping (cap_ring (latitude_degrees item.2) (longitude_degrees item.2) angle)
  = Raise (ValueError msg) →
  get_cell_ids_h3 (latitude_degrees item.2) (longitude_degrees item.2) angle
  = Raise (UnboundLocalError "mapping") ∧
  (∀ coverage_set, sat_body coverage_set item = Raise (UnboundLocalError "mapping")) ∧
  (∃ e calls,
     main_loop process log = (Raise e, log ++ calls) ∧
     calls `prefix_of` all_calls process (take (S k) (range TIME_PER_PROCESS))).
Proof.
  intros Hk Hsub Hin Hcap Hpoly.
  assert (get_cell_ids_h3 (latitude_degrees item.2) (longitude_degrees item.2) angle
          = Raise (UnboundLocalError "mapping")) as Hcells.
  { unfold get_cell_ids_h3. fold (cap_ring (latitude_degrees item.2)
                                   (longitude_degrees item.2) angle).
    rewrite Hpoly. reflexivity. }
  assert (∀ cs, sat_body cs item = Raise (UnboundLocalError "mapping")) as Hbody.
  { intros cs. unfold sat_body. rewrite Hcap. simpl. rewrite Hcells. reflexivity. }
  split; [exact Hcells |]. split; [exact Hbody |].
  destruct (subpoints_at_run (time_of process i) log) as (c & Heq & _ & _).
  rewrite Heq in Hsub. simpl in Hsub.
  assert (∃ e, coverage_set_at (time_of process i) = Raise e) as [e He].
  { unfold coverage_set_at. rewrite Hsub. simpl.
    apply inner_loop_raises_at with (item := item); [exact Hin |].
    intros cs. rewrite Hbody. reflexivity. }
  apply main_loop_raises with (i := i) (e := e); assumption.
Qed.

(** *** The lines before the loop *)

(** X14. Without a satellite named STARLINK-1284 in the catalogue the
    script ends with [KeyError] right after the propagator calls of the
    lines before the loop: the loop does not start and nothing is written. *)
Theorem script_needs_starlink_1284
    (process : Z) (now : Time) (log : list call)
    (subpoints : list (string * Geodetic)) :
  "STARLINK-1284" ∉ map sat_name sats →
  (subpoints_at now log).1 = Ok subpoints →
  script process now log = (Raise (KeyError "STARLINK-1284"), log ++ calls_at now).
Proof.
  intros Hmissing Hsub.
  destruct (subpoints_at_run now log) as (calls & Heq & _ & Hcalls).
  rewrite Heq in Hsub. simpl in Hsub.
  unfold script, mbind at 1. rewrite Heq, Hsub.
  rewrite Hcalls by (rewrite Hsub; reflexivity).
  unfold mbind at 1, lift at 1.
  rewrite dict_get_missing; [reflexivity |].
  unfold subpoints_pure in Hsub.
  destruct (comprehension_keys now sats [] subpoints Hsub) as (_ & Hkeys & _).
  intros [H | H]%Hkeys; [inversion H | contradiction].
Qed.

(** *** What the counts count *)

Lemma visits_cons process cell i rest :
  visits process cell (i :: rest)
  = (if covers process cell i then 1 else 0) + visits process cell rest.
Proof.
  unfold visits. simpl. destruct (covers process cell i); simpl length; lia.
Qed.

Lemma visits_bounds process cell steps :
  0 ≤ visits process cell steps ≤ Z.of_nat (length steps).
Proof.
  induction steps as [| i rest IH]; [unfold visits; simpl; lia |].
  rewrite visits_cons, length_cons. destruct (covers process cell i); lia.
Qed.

Lemma run_pure_visits process steps coverage coverage' cell :
  for_each (step_pure process) steps coverage = Ok coverage' →
  coverage' !! cell
  = if decide (visits process cell steps = 0) then coverage !! cell
    else Some (default 0 (coverage !! cell) + visits process cell steps).
Proof.
  revert coverage. induction steps as [| i rest IH]; intros coverage; simpl.
  - intros [= <-]. reflexivity.
  - destruct (step_pure process coverage i) as [coverage1 |] eqn:Hstep;
      [| discriminate]. simpl.
    intros Hrest. rewrite (IH _ Hrest), visits_cons. clear IH Hrest.
    pose proof (visits_bounds process cell rest) as Hv.
    unfold step_pure in Hstep. unfold covers.
    destruct (coverage_set_at (time_of process i)) as [cells |]; [| discriminate].
    simpl in Hstep. injection Hstep as <-.
    rewrite accumulate_lookup.
    destruct (decide (cell ∈ cells)) as [Hin | Hnin].
    + rewrite bool_decide_eq_true_2 by exact Hin.
      rewrite (decide_False (P := 1 + visits process cell rest = 0)) by lia.
      destruct (decide (visits process cell rest = 0)) as [-> | Hne]; simpl;
        f_equal; lia.
    + rewrite bool_decide_eq_false_2 by exact Hnin. simpl.
      destruct (decide (visits process cell rest = 0)) as [Hz | Hne].
      * rewrite decide_True by lia. reflexivity.
      * rewrite decide_False by lia. reflexivity.
Qed.

Lemma run_pure_all_ok process steps coverage coverage' i :
  for_each (step_pure process) steps coverage = Ok coverage' →
  In i steps →
  ∃ cells, coverage_set_at (time_of process i) = Ok cells.
Proof.
  revert coverage. induction steps as [| x rest IH]; intros coverage; simpl;
    [intros _ [] |].
  destruct (step_pure process coverage x) as [coverage1 |] eqn:Hstep;
    [| discriminate]. simpl.
  intros Hrest [-> | Hin]; [| exact (IH _ Hrest Hin)].
  unfold step_pure in Hstep.
  destruct (coverage_set_at (time_of process i)) as [cells |]; [| discriminate].
  exists cells. reflexivity.
Qed.

(** X16. In the map of a completed run the count of a cell is the number of
    steps whose cell set holds the cell, i.e. the number of minutes of the
    window in which the cell set computed for at least one satellite holds
    it; a cell that no step covers is not in the map. *)
Theorem visit_count_is_number_of_covering_steps
    (process : Z) (log : list call) (coverage : gmap string Z) (log' : list call)
    (cell : string) :
  main_loop process log = (Ok coverage, log') →
  coverage !! cell
  = (if decide (visits process cell (range TIME_PER_PROCESS) = 0) then None
     else Some (visits process cell (range TIME_PER_PROCESS))) ∧
  0 ≤ visits process cell (range TIME_PER_PROCESS) ≤ 360 ∧
  (∀ i, In i (range TIME_PER_PROCESS) →
        ∃ subpoints,
          (subpoints_at (time_of process i) log).1 = Ok subpoints ∧
          (covers process cell i = true ↔ covered_by subpoints cell)).
Proof.
  intros Hmain. unfold main_loop in Hmain.
  destruct (run_steps_run process (range TIME_PER_PROCESS) ∅ log)
    as (calls & Hrun & _ & _).
  rewrite Hrun in Hmain. apply pair_equal_spec in Hmain as [Hpure _].
  split; [| split].
  - rewrite (run_pure_visits _ _ _ _ cell Hpure), lookup_empty. simpl.
    destruct (decide (visits process cell (range TIME_PER_PROCESS) = 0));
      [reflexivity | f_equal; lia].
  - pose proof (visits_bounds process cell (range TIME_PER_PROCESS)) as Hb.
    change (Z.of_nat (length (range TIME_PER_PROCESS))) with 360 in Hb. exact Hb.
  - intros i Hi.
    destruct (run_pure_all_ok _ _ _ _ i Hpure Hi) as (cells & Hcells).
    destruct (subpoints_at_run (time_of process i) log) as (c & -> & _ & _). simpl.
    unfold covers. rewrite Hcells. unfold coverage_set_at in Hcells.
    destruct (subpoints_pure (time_of process i)) as [subpoints |]; [| discriminate].
    simpl in Hcells. exists subpoints. split; [reflexivity |].
    rewrite bool_decide_eq_true, (inner_loop_cells _ _ _ Hcells cell).
    split; [| auto]. intros [Hin | H]; [| exact H].
    destruct (not_elem_of_empty _ Hin).
Qed.

Lemma all_calls_length process steps :
  length (all_calls process steps) = (length steps * length sats)%nat.
Proof.
  unfold all_calls, calls_at. induction steps as [| i rest IH]; simpl; [reflexivity |].
  rewrite length_app, length_map, IH. reflexivity.
Qed.

(** X17. A script that ends normally has found STARLINK-1284 in the
    dictionary built at [now] and computed its cap, has then run the driver
    loop to its end and handed the loop's map to the writer; it has called
    the propagator once per satellite before the loop and once per satellite
    and step in it, 361 times per satellite in all. *)
Theorem script_run_summary
    (process : Z) (now : Time) (log : list call)
    (file : string * list string) (log' : list call) :
  script process now log = (Ok file, log') →
  ∃ subpoints sat1 angle coverage,
    (subpoints_at now log).1 = Ok subpoints ∧
    dict_get "STARLINK-1284" subpoints = Ok sat1 ∧
    calcCapAngle (elevation_km sat1) 35 = Ok angle ∧
    main_loop process (log ++ calls_at now) = (Ok coverage, log') ∧
    file = write_output process coverage ∧
    log' = log ++ calls_at now ++ all_calls process (range TIME_PER_PROCESS) ∧
    length log' = (length log + 361 * length sats)%nat.
Proof.
  unfold script.
  destruct (subpoints_at_run now log) as (calls & Hsub & _ & Hcalls).
  unfold mbind at 1. rewrite Hsub.
  destruct (subpoints_pure now) as [subpoints | e]; [| discriminate].
  rewrite (Hcalls eq_refl).
  unfold mbind at 1, lift at 1.
  destruct (dict_get "STARLINK-1284" subpoints) as [sat1 | e] eqn:Hget; [| discriminate].
  unfold mbind at 1, lift at 1.
  destruct (calcCapAngle (elevation_km sat1) 35) as [angle | e] eqn:Hcap;
    [| discriminate].
  unfold mbind at 1.
  destruct (main_loop process (log ++ calls_at now)) as [[coverage | e] log1] eqn:Hmain;
    [| discriminate].
  unfold mret. intros Heq. apply pair_equal_spec in Heq as [[= <-] <-].
  exists subpoints, sat1, angle, coverage.
  assert (log1 = log ++ calls_at now ++ all_calls process (range TIME_PER_PROCESS))
    as Hlog.
  { unfold main_loop in Hmain.
    destruct (run_steps_run process (range TIME_PER_PROCESS) ∅ (log ++ calls_at now))
      as (c & Hrun & _ & Hc).
    rewrite Hrun in Hmain. apply pair_equal_spec in Hmain as [Hpure <-].
    rewrite Hpure in Hc. rewrite (Hc eq_refl), app_assoc. reflexivity. }
  repeat split; try reflexivity; try assumption.
  rewrite Hlog, !length_app, all_calls_length. unfold calls_at.
  rewrite length_map, main_loop_steps, length_map, length_seq. lia.
Qed.

(** *** The driver as a whole *)





End Program.

(** *** The output writer *)

(** C8. The writer names the file [h3_4_cov_<process>.txt], the process
    index in decimal, and makes one [fd.write] call per key of the coverage
    map, each key once: for a cell with count [n] the text is the cell, one
    comma, [n] in decimal and a line break.  The printed numbers read back
    as the numbers they print, and the printed count holds no comma and no
    line break. *)
Theorem output_one_line_per_cell
    (process : Z) (coverage : gmap string Z) (cell : string) (n : Z) :
  coverage !! cell = Some n →
  (write_output process coverage).1 = "h3_4_cov_" +:+ str_int process +:+ ".txt" ∧
  option_map Z.of_int (NilZero.int_of_string (str_int process)) = Some process ∧
  length (write_output process coverage).2 = size coverage ∧
  (∃ items : list (string * Z),
     (write_output process coverage).2
     = map (fun item => item.1 +:+ "," +:+ str_int item.2 +:+ newline) items ∧
     NoDup items.*1 ∧
     ∀ c m, (c, m) ∈ items ↔ coverage !! c = Some m) ∧
  In (cell +:+ "," +:+ str_int n +:+ newline) (write_output process coverage).2 ∧
  option_map Z.of_int (NilZero.int_of_string (str_int n)) = Some n ∧
  count_char "," (cell +:+ "," +:+ str_int n +:+ newline)
  = (count_char "," cell + 1)%nat ∧
  count_char (ascii_of_nat 10) (cell +:+ "," +:+ str_int n +:+ newline)
  = (count_char (ascii_of_nat 10) cell + 1)%nat.
Proof.
  intros Hcell.
  assert (∀ z, option_map Z.of_int (NilZero.int_of_string (str_int z)) = Some z)
    as Hread.
  { intros z. rewrite str_int_read_back. simpl. f_equal. apply DecimalZ.of_to. }
  split; [reflexivity |]. split; [apply Hread |]. split.
  { unfold write_output. simpl. rewrite length_map. apply length_map_to_list. }
  split.
  { exists (map_to_list coverage). split; [reflexivity |].
    split; [apply NoDup_fst_map_to_list |].
    intros c m. apply elem_of_map_to_list. }
  split.
  { unfold write_output. simpl. apply in_map_iff. exists (cell, n).
    split; [reflexivity |]. apply list_elem_of_In, elem_of_map_to_list. exact Hcell. }
  split; [apply Hread |].
  rewrite !count_char_app.
  rewrite !count_char_str_int by auto.
  split; reflexivity.
Qed.

(** ** A small world to run the program in

    Two satellites over the same point, so that their caps overlap
    entirely; the second one at an altitude [h] that the examples choose.
    The grid fill returns the cells it is given, whatever the polygon. *)

Record Utc : Type := { year : Z; month : Z; day : Z; hour : Z; minute : Z; second : Z }.

Definition demo_cell : string := "8428309ffffffff".
Definition demo_sats : list string := ["STARLINK-1284"; "STARLINK-1285"].

Definition demo_name (sat : string) : string := sat.

Definition demo_subpoint (h : R) : Geodetic :=
  {| latitude_degrees := 45; longitude_degrees := -93; elevation_km := h |}.

Definition demo_at (h : R) (sat : string) (time : Utc) : result Geodetic :=
  Ok (demo_subpoint (if decide (sat = "STARLINK-1284") then 550%R else h)).

(** A displacement of length [d] in the direction [a] (degrees) on the
    plane: the stand-in for the geodesic-forward step. *)
Definition planar_forward (p : R * R) (a d : R) : R * R :=
  (p.1 + d * cos (to_rads a), p.2 + d * sin (to_rads a))%R.

Definition demo_polyfill (cells : list string) (mapping : list (R * R))
    (res : Z) (geo_json : bool) : result (list string) := Ok cells.

Definition demo_get_cell_ids_h3 (cells : list string) : R → R → R → result (list string) :=
  get_cell_ids_h3 planar_forward (list (R * R)) Ok (demo_polyfill cells).

Definition demo_sat_body (cells : list string) :=
  sat_body planar_forward (list (R * R)) Ok (demo_polyfill cells).

Definition demo_subpoints_at (h : R) :=
  subpoints_at string Utc demo_name (demo_at h) demo_sats.

Definition demo_loop_body (h : R) (cells : list string) :=
  loop_body string Utc demo_name Build_Utc (demo_at h) planar_forward
            (list (R * R)) Ok (demo_polyfill cells) demo_sats.

Definition demo_run_steps (h : R) (cells : list string) :=
  run_steps string Utc demo_name Build_Utc (demo_at h) planar_forward
            (list (R * R)) Ok (demo_polyfill cells) demo_sats.

Definition demo_main_loop (h : R) (cells : list string) :=
  main_loop string Utc demo_name Build_Utc (demo_at h) planar_forward
            (list (R * R)) Ok (demo_polyfill cells) demo_sats.

Definition demo_script (h : R) (cells : list string) :=
  script string Utc demo_name Build_Utc (demo_at h) planar_forward
         (list (R * R)) Ok (demo_polyfill cells) demo_sats.

Definition demo_covered_by (cells : list string) :=
  covered_by planar_forward (list (R * R)) Ok (demo_polyfill cells).

Definition demo_time (process i : Z) : Utc := Build_Utc 2020 6 20 0 (process * 360 + i) 0.

Definition demo_subpoints (h : R) : list (string * Geodetic) :=
  [("STARLINK-1284", demo_subpoint 550); ("STARLINK-1285", demo_subpoint h)].

(** The count map that holds [k] for the one cell of the examples. *)
Definition demo_counts (k : Z) : gmap string Z :=
  if decide (k = 0) then ∅ else {[demo_cell := k]}.

Lemma demo_cap_angle : calcCapAngle 550 35 = Ok (cap_formula 550 35).
Proof. apply calcCapAngle_total; lra. Qed.

Lemma demo_subpoints_pure h time :
  subpoints_pure string Utc demo_name (demo_at h) demo_sats time = Ok (demo_subpoints h).
Proof. reflexivity. Qed.

Lemma demo_sat_body_ok cells coverage_set item angle :
  calcCapAngle (elevation_km item.2) 35 = Ok angle →
  demo_sat_body cells coverage_set item = Ok (add_cells coverage_set cells).
Proof.
  intros Ha. unfold demo_sat_body.
  apply (sat_body_ok planar_forward (list (R * R)) Ok (demo_polyfill cells)
           coverage_set item angle cells Ha).
  reflexivity.
Qed.

Lemma demo_inner_loop h cells angle :
  calcCapAngle h 35 = Ok angle →
  for_each (demo_sat_body cells) (demo_subpoints h) ∅
  = Ok (add_cells (add_cells ∅ cells) cells).
Proof.
  intros Hh. unfold demo_subpoints. simpl.
  rewrite (demo_sat_body_ok cells ∅ ("STARLINK-1284", demo_subpoint 550)
             (cap_formula 550 35) demo_cap_angle).
  simpl.
  rewrite (demo_sat_body_ok cells _ ("STARLINK-1285", demo_subpoint h) angle Hh).
  reflexivity.
Qed.

Lemma demo_inner_loop_raises h cells e :
  calcCapAngle h 35 = Raise e →
  for_each (demo_sat_body cells) (demo_subpoints h) ∅ = Raise e.
Proof.
  intros Hh. unfold demo_subpoints. simpl.
  rewrite (demo_sat_body_ok cells ∅ ("STARLINK-1284", demo_subpoint 550)
             (cap_formula 550 35) demo_cap_angle).
  simpl. unfold demo_sat_body, sat_body. simpl. rewrite Hh. reflexivity.
Qed.

Lemma demo_loop_body_run h cells process coverage i log :
  demo_loop_body h cells process coverage i log
  = (rbind (for_each (demo_sat_body cells) (demo_subpoints h) ∅)
           (fun coverage_set => Ok (accumulate coverage coverage_set)),
     log ++ [("STARLINK-1284", demo_time process i);
             ("STARLINK-1285", demo_time process i)]).
Proof.
  unfold demo_loop_body.
  destruct (loop_body_run string Utc demo_name Build_Utc (demo_at h) planar_forward
              (list (R * R)) Ok (demo_polyfill cells) demo_sats
              process coverage i log) as (calls & Hrun & _ & Hcalls & _).
  rewrite Hrun, (Hcalls eq_refl). reflexivity.
Qed.

Lemma demo_accumulate k :
  0 ≤ k →
  accumulate (demo_counts k) (add_cells (add_cells ∅ [demo_cell]) [demo_cell])
  = demo_counts (k + 1).
Proof.
  intros Hk. apply map_eq. intros cell. rewrite accumulate_lookup.
  assert (cell ∈ add_cells (add_cells ∅ [demo_cell]) [demo_cell]
          ↔ cell = demo_cell) as Hcell.
  { rewrite !elem_of_add_cells, list_elem_of_singleton. split.
    - intros [[H | H] | H]; [destruct (not_elem_of_empty _ H) | exact H | exact H].
    - intros H. right. exact H. }
  unfold demo_counts. rewrite (decide_False (P := k + 1 = 0)) by lia.
  destruct (decide (cell ∈ add_cells (add_cells ∅ [demo_cell]) [demo_cell]))
    as [Hin | Hnin].
  - apply Hcell in Hin as ->. rewrite lookup_singleton_eq.
    destruct (decide (k = 0)) as [-> | Hne].
    + rewrite lookup_empty. reflexivity.
    + rewrite lookup_singleton_eq. reflexivity.
  - assert (cell ≠ demo_cell) as Hne by (intros Heq; apply Hnin, Hcell, Heq).
    rewrite lookup_singleton_ne by congruence.
    destruct (decide (k = 0)).
    + apply lookup_empty.
    + apply lookup_singleton_ne. congruence.
Qed.

Lemma demo_run_steps_ok h angle process steps k log :
  calcCapAngle h 35 = Ok angle →
  0 ≤ k →
  demo_run_steps h [demo_cell] process steps (demo_counts k) log
  = (Ok (demo_counts (k + Z.of_nat (length steps))),
     log ++ all_calls string Utc Build_Utc demo_sats process steps).
Proof.
  intros Hh. unfold demo_run_steps. revert k log.
  induction steps as [| i rest IH]; intros k log Hk.
  - unfold run_steps. simpl. unfold mret. rewrite Z.add_0_r, app_nil_r. reflexivity.
  - rewrite run_steps_cons.
    pose proof (demo_loop_body_run h [demo_cell] process (demo_counts k) i log) as Hbody.
    unfold demo_loop_body in Hbody. rewrite Hbody.
    rewrite (demo_inner_loop h [demo_cell] angle Hh). unfold rbind. cbv beta iota.
    rewrite (demo_accumulate k Hk), IH by lia.
    f_equal.
    + do 2 f_equal. rewrite length_cons. lia.
    + rewrite <- app_assoc. reflexivity.
Qed.

Lemma demo_domain_error :
  calcCapAngle (-3189.05) 35 = Raise (ValueError "math domain error").
Proof.
  unfold calcCapAngle. rewrite float_div_ok by (unfold R_MEAN; lra). simpl.
  rewrite math_asin_raises; [reflexivity |]. right.
  rewrite sin_shifted.
  assert (cos (PI / 3) < cos (to_rads 35))%R as Hcos.
  { pose proof PI_RGT_0. apply cos_decreasing_1; unfold to_rads; lra. }
  rewrite cos_PI3 in Hcos. unfold R_MEAN. lra.
Qed.

(** *** The examples of the claims *)

Lemma step_increments_union_once_witness :
  demo_loop_body 550 [demo_cell] 0 ∅ 0 []
  = (Ok {[demo_cell := 1]},
     [("STARLINK-1284", demo_time 0 0); ("STARLINK-1285", demo_time 0 0)]) ∧
  ∃ subpoints,
    (demo_subpoints_at 550 (demo_time 0 0) []).1 = Ok subpoints ∧
    ∀ cell,
      (demo_covered_by [demo_cell] subpoints cell →
       ({[demo_cell := 1]} : gmap string Z) !! cell
       = Some (default 0 ((∅ : gmap string Z) !! cell) + 1)) ∧
      (¬ demo_covered_by [demo_cell] subpoints cell →
       ({[demo_cell := 1]} : gmap string Z) !! cell = (∅ : gmap string Z) !! cell).
Proof.
  assert (demo_loop_body 550 [demo_cell] 0 ∅ 0 []
          = (Ok {[demo_cell := 1]},
             [("STARLINK-1284", demo_time 0 0); ("STARLINK-1285", demo_time 0 0)]))
    as Hrun.
  { change (demo_loop_body 550 [demo_cell] 0 (demo_counts 0) 0 []
            = (Ok (demo_counts (0 + 1)),
               [("STARLINK-1284", demo_time 0 0); ("STARLINK-1285", demo_time 0 0)])).
    rewrite demo_loop_body_run, (demo_inner_loop 550 [demo_cell] _ demo_cap_angle).
    unfold rbind. cbv beta iota.
    rewrite (demo_accumulate 0 (Z.le_refl 0)). reflexivity. }
  split; [exact Hrun |].
  exact (step_increments_union_once string Utc demo_name Build_Utc (demo_at 550)
           planar_forward (list (R * R)) Ok (demo_polyfill [demo_cell]) demo_sats
           0 ∅ 0 [] _ _ Hrun).
Defined.

Lemma empty_cells_not_enforced_witness :
  calcCapAngle (elevation_km ("STARLINK-1285", demo_subpoint 550).2) 35
  = Ok (cap_formula 550 35) ∧
  demo_get_cell_ids_h3 [] 45 (-93) (cap_formula 550 35) = Ok [] ∧
  expr_stmt (Exception "empty region returned") = Ok () ∧
  demo_sat_body [] {[demo_cell]} ("STARLINK-1285", demo_subpoint 550)
  = Ok {[demo_cell]} ∧
  ∀ start,
    for_each (demo_sat_body [])
             ([("STARLINK-1284", demo_subpoint 550)]
              ++ ("STARLINK-1285", demo_subpoint 550)
              :: [("STARLINK-1286", demo_subpoint 550)]) start
    = for_each (demo_sat_body [])
               ([("STARLINK-1284", demo_subpoint 550)]
                ++ [("STARLINK-1286", demo_subpoint 550)]) start.
Proof.
  split; [exact demo_cap_angle |]. split; [reflexivity |].
  exact (empty_cells_not_enforced planar_forward (list (R * R)) Ok (demo_polyfill [])
           {[demo_cell]} ("STARLINK-1285", demo_subpoint 550) (cap_formula 550 35)
           [("STARLINK-1284", demo_subpoint 550)]
           [("STARLINK-1286", demo_subpoint 550)]
           demo_cap_angle eq_refl).
Defined.

Lemma visit_counts_bounded_witness :
  (360 ≤ 360)%nat ∧
  demo_run_steps 550 [demo_cell] 0 (take 360 (range TIME_PER_PROCESS)) ∅ []
  = (Ok {[demo_cell := 360]},
     all_calls string Utc Build_Utc demo_sats 0 (range TIME_PER_PROCESS)) ∧
  (∀ cell n, ({[demo_cell := 360]} : gmap string Z) !! cell = Some n →
             1 ≤ n ≤ Z.of_nat 360) ∧
  (∀ line, In line (write_output 0 {[demo_cell := 360]}).2 →
           ∃ cell n, line = output_line (cell, n) ∧
                     ({[demo_cell := 360]} : gmap string Z) !! cell = Some n ∧
                     1 ≤ n ≤ TIME_PER_PROCESS) ∧
  (360%nat = 360%nat →
   demo_main_loop 550 [demo_cell] 0 []
   = (Ok {[demo_cell := 360]},
      all_calls string Utc Build_Utc demo_sats 0 (range TIME_PER_PROCESS))).
Proof.
  assert (demo_run_steps 550 [demo_cell] 0 (take 360 (range TIME_PER_PROCESS)) ∅ []
          = (Ok {[demo_cell := 360]},
             all_calls string Utc Build_Utc demo_sats 0 (range TIME_PER_PROCESS)))
    as Hrun.
  { exact (demo_run_steps_ok 550 _ 0 (take 360 (range TIME_PER_PROCESS)) 0 []
             demo_cap_angle (Z.le_refl 0)). }
  split; [exact (le_n 360) |]. split; [exact Hrun |].
  exact (visit_counts_bounded string Utc demo_name Build_Utc (demo_at 550)
           planar_forward (list (R * R)) Ok (demo_polyfill [demo_cell]) demo_sats
           0 360 [] _ _ (le_n 360) Hrun).
Defined.

Lemma output_one_line_per_cell_witness :
  ({[demo_cell := 360]} : gmap string Z) !! demo_cell = Some 360 ∧
  write_output 3 {[demo_cell := 360]}
  = ("h3_4_cov_3.txt", ["8428309ffffffff,360" +:+ newline]) ∧
  (write_output 3 {[demo_cell := 360]}).1 = "h3_4_cov_" +:+ str_int 3 +:+ ".txt" ∧
  option_map Z.of_int (NilZero.int_of_string (str_int 3)) = Some 3 ∧
  length (write_output 3 {[demo_cell := 360]}).2
  = size ({[demo_cell := 360]} : gmap string Z) ∧
  (∃ items : list (string * Z),
     (write_output 3 {[demo_cell := 360]}).2
     = map (fun item => item.1 +:+ "," +:+ str_int item.2 +:+ newline) items ∧
     NoDup items.*1 ∧
     ∀ c m, (c, m) ∈ items ↔ ({[demo_cell := 360]} : gmap string Z) !! c = Some m) ∧
  In (demo_cell +:+ "," +:+ str_int 360 +:+ newline)
     (write_output 3 {[demo_cell := 360]}).2 ∧
  option_map Z.of_int (NilZero.int_of_string (str_int 360)) = Some 360 ∧
  count_char "," (demo_cell +:+ "," +:+ str_int 360 +:+ newline)
  = (count_char "," demo_cell + 1)%nat ∧
  count_char (ascii_of_nat 10) (demo_cell +:+ "," +:+ str_int 360 +:+ newline)
  = (count_char (ascii_of_nat 10) demo_cell + 1)%nat.
Proof.
  assert (({[demo_cell := 360]} : gmap string Z) !! demo_cell = Some 360) as Hcell
    by apply lookup_singleton_eq.
  split; [exact Hcell |]. split.
  { unfold write_output. rewrite map_to_list_singleton. reflexivity. }
  exact (output_one_line_per_cell 3 {[demo_cell := 360]} demo_cell 360 Hcell).
Defined.

(** C4 as stated fails: with the second satellite 3189.05 km below the
    sphere [math.asin] gets [2 * cos 35° > 1]; the [ValueError] leaves the
    driver loop in its first step, after the two propagator calls of that
    step and none of the 359 steps that remain, and the script ends with the
    exception instead of a file. *)
Lemma domain_error_stops_the_run :
  calcCapAngle (-3189.05) 35 = Raise (ValueError "math domain error") ∧
  demo_main_loop (-3189.05) [demo_cell] 0 []
  = (Raise (ValueError "math domain error"),
     [("STARLINK-1284", demo_time 0 0); ("STARLINK-1285", demo_time 0 0)]) ∧
  demo_script (-3189.05) [demo_cell] 0 (Build_Utc 2020 6 19 12 0 0) []
  = (Raise (ValueError "math domain error"),
     [("STARLINK-1284", Build_Utc 2020 6 19 12 0 0);
      ("STARLINK-1285", Build_Utc 2020 6 19 12 0 0);
      ("STARLINK-1284", demo_time 0 0); ("STARLINK-1285", demo_time 0 0)]).
Proof.
  assert (∀ log, demo_main_loop (-3189.05) [demo_cell] 0 log
                 = (Raise (ValueError "math domain error"),
                    log ++ [("STARLINK-1284", demo_time 0 0);
                            ("STARLINK-1285", demo_time 0 0)])) as Hloop.
  { intros log. unfold demo_main_loop, main_loop. rewrite main_loop_steps.
    change (map Z.of_nat (seq 0 360)) with (0 :: map Z.of_nat (seq 1 359)).
    apply run_steps_head_raise.
    pose proof (demo_loop_body_run (-3189.05) [demo_cell] 0 ∅ 0 log) as Hbody.
    unfold demo_loop_body in Hbody. rewrite Hbody.
    rewrite (demo_inner_loop_raises _ _ _ demo_domain_error). reflexivity. }
  split; [exact demo_domain_error |]. split; [apply (Hloop []) |].
  unfold demo_script, script.
  destruct (subpoints_at_run string Utc demo_name (demo_at (-3189.05)) demo_sats
              (Build_Utc 2020 6 19 12 0 0) []) as (calls & Hsub & _ & Hcalls).
  unfold mbind at 1. rewrite Hsub, (Hcalls eq_refl).
  rewrite demo_subpoints_pure.
  unfold mbind at 1, lift at 1. simpl dict_get. cbv beta iota.
  unfold mbind at 1, lift at 1. simpl elevation_km. rewrite demo_cap_angle.
  unfold mbind at 1.
  pose proof (Hloop ([] ++ calls_at string Utc demo_sats (Build_Utc 2020 6 19 12 0 0)))
    as Hrun.
  unfold demo_main_loop in Hrun. rewrite Hrun. reflexivity.
Qed.

Lemma domain_error_aborts_run_witness :
  range TIME_PER_PROCESS !! 0%nat = Some 0 ∧
  (demo_subpoints_at (-3189.05) (demo_time 0 0) []).1 = Ok (demo_subpoints (-3189.05)) ∧
  ("STARLINK-1285", demo_subpoint (-3189.05)) ∈ demo_subpoints (-3189.05) ∧
  calcCapAngle (elevation_km ("STARLINK-1285", demo_subpoint (-3189.05)).2) 35
  = Raise (ValueError "math domain error") ∧
  (∃ e calls,
     demo_main_loop (-3189.05) [demo_cell] 0 [] = (Raise e, [] ++ calls) ∧
     calls `prefix_of` all_calls string Utc Build_Utc demo_sats 0
                                 (take 1 (range TIME_PER_PROCESS))) ∧
  (∃ e log',
     demo_script (-3189.05) [demo_cell] 0 (Build_Utc 2020 6 19 12 0 0) []
     = (Raise e, log')).
Proof.
  assert (("STARLINK-1285", demo_subpoint (-3189.05)) ∈ demo_subpoints (-3189.05))
    as Hin by (apply list_elem_of_further, list_elem_of_here).
  split; [reflexivity |]. split; [reflexivity |]. split; [exact Hin |].
  split; [exact demo_domain_error |].
  exact (domain_error_aborts_run string Utc demo_name Build_Utc (demo_at (-3189.05))
           planar_forward (list (R * R)) Ok (demo_polyfill [demo_cell]) demo_sats
           0 0%nat 0 (demo_subpoints (-3189.05))
           ("STARLINK-1285", demo_subpoint (-3189.05)) "math domain error"
           (Build_Utc 2020 6 19 12 0 0) []
           eq_refl eq_refl Hin demo_domain_error).
Defined.

(** *** Examples of the further properties *)

(** A catalogue in which one name occurs twice, at two altitudes. *)
Definition named_sats : list (string * R) := [("A", 340%R); ("B", 550%R); ("A", 550%R)].
Definition named_name (sat : string * R) : string := sat.1.
Definition named_at (sat : string * R) (time : Utc) : result Geodetic :=
  Ok (demo_subpoint sat.2).

(** A shapely that refuses every ring. *)
Definition refusing_mapping (ring : list (R * R)) : result (list (R * R)) :=
  Raise (ValueError "A LinearRing must have at least 3 coordinate tuples").

Definition demo_now : Utc := Build_Utc 2020 6 19 12 0 0.

Lemma subpoints_last_name_wins_witness :
  (subpoints_at (string * R) Utc named_name named_at named_sats (demo_time 0 0) []).1
  = Ok [("A", demo_subpoint 550); ("B", demo_subpoint 550)] ∧
  NoDup [("A", demo_subpoint 550); ("B", demo_subpoint 550)].*1 ∧
  (∀ name, name ∈ [("A", demo_subpoint 550); ("B", demo_subpoint 550)].*1
           ↔ name ∈ map named_name named_sats) ∧
  (length [("A", demo_subpoint 550); ("B", demo_subpoint 550)] ≤ length named_sats)%nat ∧
  (∀ before sat after,
     named_sats = before ++ sat :: after →
     named_name sat ∉ map named_name after →
     dict_get (named_name sat) [("A", demo_subpoint 550); ("B", demo_subpoint 550)]
     = named_at sat (demo_time 0 0)).
Proof.
  split; [reflexivity |].
  exact (subpoints_last_name_wins (string * R) Utc named_name named_at named_sats
           (demo_time 0 0) [] _ eq_refl).
Defined.

Lemma polygon_error_becomes_unbound_local_witness :
  range TIME_PER_PROCESS !! 0%nat = Some 0 ∧
  (demo_subpoints_at 550 (demo_time 0 0) []).1 = Ok (demo_subpoints 550) ∧
  ("STARLINK-1284", demo_subpoint 550) ∈ demo_subpoints 550 ∧
  calcCapAngle (elevation_km ("STARLINK-1284", demo_subpoint 550).2) 35
  = Ok (cap_formula 550 35) ∧
  refusing_mapping (cap_ring planar_forward 45 (-93) (cap_formula 550 35))
  = Raise (ValueError "A LinearRing must have at least 3 coordinate tuples") ∧
  get_cell_ids_h3 planar_forward (list (R * R)) refusing_mapping
                  (demo_polyfill [demo_cell]) 45 (-93) (cap_formula 550 35)
  = Raise (UnboundLocalError "mapping") ∧
  (∀ coverage_set,
     sat_body planar_forward (list (R * R)) refusing_mapping (demo_polyfill [demo_cell])
              coverage_set ("STARLINK-1284", demo_subpoint 550)
     = Raise (UnboundLocalError "mapping")) ∧
  (∃ e calls,
     main_loop string Utc demo_name Build_Utc (demo_at 550) planar_forward
               (list (R * R)) refusing_mapping (demo_polyfill [demo_cell]) demo_sats
               0 []
     = (Raise e, [] ++ calls) ∧
     calls `prefix_of` all_calls string Utc Build_Utc demo_sats 0
                                 (take 1 (range TIME_PER_PROCESS))).
Proof.
  assert (("STARLINK-1284", demo_subpoint 550) ∈ demo_subpoints 550)
    as Hin by apply list_elem_of_here.
  split; [reflexivity |]. split; [reflexivity |]. split; [exact Hin |].
  split; [exact demo_cap_angle |]. split; [reflexivity |].
  exact (polygon_error_becomes_unbound_local string Utc demo_name Build_Utc
           (demo_at 550) planar_forward (list (R * R)) refusing_mapping
           (demo_polyfill [demo_cell]) demo_sats
           0 0%nat 0 (demo_subpoints 550) ("STARLINK-1284", demo_subpoint 550)
           (cap_formula 550 35) "A LinearRing must have at least 3 coordinate tuples" []
           eq_refl eq_refl Hin demo_cap_angle eq_refl).
Defined.

Lemma script_needs_starlink_1284_witness :
  ("STARLINK-1284" ∉ map demo_name ["STARLINK-1285"]) ∧
  (subpoints_at string Utc demo_name (demo_at 550) ["STARLINK-1285"] demo_now []).1
  = Ok [("STARLINK-1285", demo_subpoint 550)] ∧
  script string Utc demo_name Build_Utc (demo_at 550) planar_forward
         (list (R * R)) Ok (demo_polyfill [demo_cell]) ["STARLINK-1285"] 0 demo_now []
  = (Raise (KeyError "STARLINK-1284"),
     [] ++ calls_at string Utc ["STARLINK-1285"] demo_now).
Proof.
  assert ("STARLINK-1284" ∉ map demo_name ["STARLINK-1285"]) as Hmissing.
  { intros H. apply list_elem_of_singleton in H. discriminate H. }
  split; [exact Hmissing |]. split; [reflexivity |].
  exact (script_needs_starlink_1284 string Utc demo_name Build_Utc (demo_at 550)
           planar_forward (list (R * R)) Ok (demo_polyfill [demo_cell])
           ["STARLINK-1285"] 0 demo_now [] _ Hmissing eq_refl).
Defined.

Definition demo_covers :=
  covers string Utc demo_name Build_Utc (demo_at 550) planar_forward
         (list (R * R)) Ok (demo_polyfill [demo_cell]) demo_sats.

Definition demo_visits :=
  visits string Utc demo_name Build_Utc (demo_at 550) planar_forward
         (list (R * R)) Ok (demo_polyfill [demo_cell]) demo_sats.

Lemma demo_main_loop_ok log :
  demo_main_loop 550 [demo_cell] 0 log
  = (Ok {[demo_cell := 360]},
     log ++ all_calls string Utc Build_Utc demo_sats 0 (range TIME_PER_PROCESS)).
Proof.
  exact (demo_run_steps_ok 550 _ 0 (range TIME_PER_PROCESS) 0 log
           demo_cap_angle (Z.le_refl 0)).
Qed.


Lemma visit_count_is_number_of_covering_steps_witness :
  demo_main_loop 550 [demo_cell] 0 []
  = (Ok {[demo_cell := 360]},
     [] ++ all_calls string Utc Build_Utc demo_sats 0 (range TIME_PER_PROCESS)) ∧
  ({[demo_cell := 360]} : gmap string Z) !! demo_cell
  = (if decide (demo_visits 0 demo_cell (range TIME_PER_PROCESS) = 0) then None
     else Some (demo_visits 0 demo_cell (range TIME_PER_PROCESS))) ∧
  0 ≤ demo_visits 0 demo_cell (range TIME_PER_PROCESS) ≤ 360 ∧
  (∀ i, In i (range TIME_PER_PROCESS) →
        ∃ subpoints,
          (demo_subpoints_at 550 (time_of Utc Build_Utc 0 i) []).1 = Ok subpoints ∧
          (demo_covers 0 demo_cell i = true
           ↔ demo_covered_by [demo_cell] subpoints demo_cell)).
Proof.
  split; [exact (demo_main_loop_ok []) |].
  exact (visit_count_is_number_of_covering_steps string Utc demo_name Build_Utc
           (demo_at 550) planar_forward (list (R * R)) Ok (demo_polyfill [demo_cell])
           demo_sats 0 [] _ _ demo_cell (demo_main_loop_ok [])).
Defined.

Lemma demo_script_ok :
  demo_script 550 [demo_cell] 0 demo_now []
  = (Ok (write_output 0 {[demo_cell := 360]}),
     ([] ++ calls_at string Utc demo_sats demo_now)
     ++ all_calls string Utc Build_Utc demo_sats 0 (range TIME_PER_PROCESS)).
Proof.
  unfold demo_script, script.
  destruct (subpoints_at_run string Utc demo_name (demo_at 550) demo_sats demo_now [])
    as (calls & Hsub & _ & Hcalls).
  unfold mbind at 1. rewrite Hsub, (Hcalls eq_refl).
  rewrite demo_subpoints_pure.
  unfold mbind at 1, lift at 1. simpl dict_get. cbv beta iota.
  unfold mbind at 1, lift at 1. simpl elevation_km. rewrite demo_cap_angle.
  unfold mbind at 1.
  pose proof (demo_main_loop_ok ([] ++ calls_at string Utc demo_sats demo_now)) as Hrun.
  unfold demo_main_loop in Hrun. rewrite Hrun. reflexivity.
Qed.

Lemma script_run_summary_witness :
  demo_script 550 [demo_cell] 0 demo_now []
  = (Ok (write_output 0 {[demo_cell := 360]}),
     ([] ++ calls_at string Utc demo_sats demo_now)
     ++ all_calls string Utc Build_Utc demo_sats 0 (range TIME_PER_PROCESS)) ∧
  ∃ subpoints sat1 angle coverage,
    (demo_subpoints_at 550 demo_now []).1 = Ok subpoints ∧
    dict_get "STARLINK-1284" subpoints = Ok sat1 ∧
    calcCapAngle (elevation_km sat1) 35 = Ok angle ∧
    demo_main_loop 550 [demo_cell] 0 ([] ++ calls_at string Utc demo_sats demo_now)
    = (Ok coverage,
       ([] ++ calls_at string Utc demo_sats demo_now)
       ++ all_calls string Utc Build_Utc demo_sats 0 (range TIME_PER_PROCESS)) ∧
    write_output 0 {[demo_cell := 360]} = write_output 0 coverage ∧
    ([] ++ calls_at string Utc demo_sats demo_now)
    ++ all_calls string Utc Build_Utc demo_sats 0 (range TIME_PER_PROCESS)
    = [] ++ calls_at string Utc demo_sats demo_now
      ++ all_calls string Utc Build_Utc demo_sats 0 (range TIME_PER_PROCESS) ∧
    length (([] ++ calls_at string Utc demo_sats demo_now)
            ++ all_calls string Utc Build_Utc demo_sats 0 (range TIME_PER_PROCESS))
    = (length (@nil (string * Utc)) + 361 * length demo_sats)%nat.
Proof.
  split; [exact demo_script_ok |].
  exact (script_run_summary string Utc demo_name Build_Utc (demo_at 550)
           planar_forward (list (R * R)) Ok (demo_polyfill [demo_cell]) demo_sats
           0 demo_now [] _ _ demo_script_ok).
Defined.

End Driver.
